(** * 2p-2runner: section slicing and batch selection

    A shallow embedding of [2p-2runner.py] (the WowHead quest parser):
    the two find()-based slicers [html_slice] and [markdown_slice], the
    per-file worker [conversion_process] with its progress callback, and
    the three sequential selections [export_long], [pick_rand] and
    [match_list].

    Python values are modelled as follows.
    - [str] is a list of characters ([pystr]); [None] is [None] of
      [option pystr].
    - [str.find], slicing, [str.replace] and [in] follow CPython: indices
      are integers ([Z]), negative indices count from the end, and
      out-of-range slice bounds are clipped.
    - A directory is the list of its entries in iteration order; an entry
      carries its name and what reading it gives.
    - The output directory is a finite map from file names to contents.
    - Exceptions and the state of the run are threaded by a small
      state-and-error monad. *)

From Stdlib Require Import ZArith Ascii String Lia.
From stdpp Require Import gmap strings list fin_maps.

Local Open Scope Z_scope.

(** ** Python strings *)

Abbreviation pystr := (list ascii).

Module PyStr.

Definition str (s : string) : pystr := list_ascii_of_string s.

Definition dquote : ascii := ascii_of_nat 34.
Definition nl : ascii := ascii_of_nat 10.

Definition len (s : pystr) : Z := Z.of_nat (length s).

(** [s.startswith(sub)], the test at one position of a substring search. *)
Fixpoint startswith (sub s : pystr) : bool :=
  match sub, s with
  | [], _ => true
  | _ :: _, [] => false
  | a :: sub', b :: s' => bool_decide (a = b) && startswith sub' s'
  end.

(** Offset of the first occurrence of [sub] in [s], scanning left to right. *)
Fixpoint find_nat (sub s : pystr) : option nat :=
  if startswith sub s then Some O
  else match s with
       | [] => None
       | _ :: s' => S <$> find_nat sub s'
       end.

(** [s.find(sub, start)]: a negative [start] counts from the end, and a
    [start] beyond the end finds nothing. *)
Definition find_from (sub s : pystr) (start : Z) : Z :=
  let n := len s in
  let st := if start <? 0 then Z.max 0 (start + n) else start in
  if n <? st then -1
  else match find_nat sub (drop (Z.to_nat st) s) with
       | Some k => st + Z.of_nat k
       | None => -1
       end.

(** [s.find(sub)]. *)
Definition find (sub s : pystr) : Z := find_from sub s 0.

(** How a slice bound is clipped to [0 .. len]. *)
Definition clip (i n : Z) : Z :=
  if i <? 0 then Z.max 0 (i + n) else Z.min i n.

(** [s[a:b]]. *)
Definition slice (s : pystr) (a b : Z) : pystr :=
  let n := len s in
  let lo := clip a n in
  let hi := clip b n in
  take (Z.to_nat (hi - lo)) (drop (Z.to_nat lo) s).

(** [s.replace(old, new)] for a non-empty [old]: occurrences are replaced
    left to right without overlap.  [skip] counts the characters of a
    matched occurrence that are still to be dropped. *)
Fixpoint replace_skip (old new s : pystr) (skip : nat) : pystr :=
  match s with
  | [] => []
  | c :: s' =>
    match skip with
    | S k => replace_skip old new s' k
    | O =>
      if startswith old s
      then new ++ replace_skip old new s' (length old - 1)
      else c :: replace_skip old new s' O
    end
  end.

Definition replace (old new s : pystr) : pystr := replace_skip old new s O.

(** [sub in s]. *)
Definition contains (sub s : pystr) : bool :=
  match find_nat sub s with Some _ => true | None => false end.

End PyStr.
Import PyStr.

(** ** The slicers *)

(** The outcome of a computation that runs a [while] loop: with too little
    fuel the loop has not finished. *)
Inductive partial (A : Type) : Type :=
  | OutOfFuel
  | Done (a : A).
Arguments OutOfFuel {A}.
Arguments Done {A} a.

Definition DESCRIPTION_H2 : pystr :=
  str "<h2 class=" ++ [dquote] ++ str "heading-size-3" ++ [dquote]
  ++ str ">Description</h2>".

(** The loop of [html_slice]:
    [while test2.find('<') > 0: k = ..; l = ..; test2 = test2[0:k] + test2[l + 1:len(test2)]]. *)
Fixpoint strip_loop (fuel : nat) (test2 : pystr) : partial pystr :=
  if 0 <? find (str "<") test2 then
    match fuel with
    | O => OutOfFuel
    | S fuel' =>
      let k := find (str "<") test2 in
      let l := find (str ">") test2 in
      strip_loop fuel' (slice test2 0 k ++ slice test2 (l + 1) (len test2))
    end
  else Done test2.

(** [html_slice(content)].  On [None] the first [content.find] raises, the
    handler returns [None]. *)
Definition html_slice (fuel : nat) (content : option pystr)
  : partial (option pystr) :=
  match content with
  | None => Done None
  | Some content =>
    let i := find DESCRIPTION_H2 content in
    if i =? -1 then Done None
    else
      let test := slice content (i + 43) (len content) in
      let j := find (str "<h2") test in
      let test2 := slice test 0 j in
      match strip_loop fuel test2 with
      | OutOfFuel => OutOfFuel
      | Done r => Done (Some r)
      end
  end.

(** [markdown_slice(content)]. *)
Definition markdown_slice (content : option pystr) : option pystr :=
  match content with
  | None => None
  | Some content =>
    let i := find (str "## Description") content in
    let ii := find_from (str "##") content (i + 1) in
    if i =? -1 then None
    else
      let sliced_text := slice content (i + 14) ii in
      let content :=
        replace (str "## [Progress](javascript:)") (str "## Progress") content in
      let j := find (str "## Progress") content in
      let jj := find_from (str "##") content (j + 1) in
      let sliced_text :=
        if negb (j =? -1) then sliced_text ++ slice content (j + 11) jj
        else sliced_text in
      let content :=
        replace (str "## [Completion](javascript:)") (str "## Completion") content in
      let k := find (str "## Completion") content in
      let kk := find_from (str "##") content (k + 1) in
      let sliced_text :=
        if negb (k =? -1) then sliced_text ++ slice content (k + 13) kk
        else sliced_text in
      Some sliced_text
  end.

(** The document of three sections followed by ["## Other"]. *)
Definition three_sections_doc : pystr :=
  str "## Description" ++ [nl] ++ str "Foo" ++ [nl]
  ++ str "## Progress" ++ [nl] ++ str "Bar" ++ [nl]
  ++ str "## Completion" ++ [nl] ++ str "Baz" ++ [nl]
  ++ str "## Other".


(** ** Files, exceptions and the state of a run *)

(** A directory entry: its name, and what opening and reading it gives
    ([None] when either fails). *)
Record file : Type := File {
  name : pystr;
  data : option pystr
}.

Inductive exn : Type :=
  | TypeError
  | ValueError
  | SystemExit
  | ConversionError.

(** The output directory, the names [import_text] was called on, and the
    two module-level counters. *)
Record world : Type := World {
  outdir : gmap pystr pystr;
  reads : list pystr;
  total_files_processed : Z;
  total_files_queued : Z
}.

Definition set_outdir (o : gmap pystr pystr) (w : world) : world :=
  World o (reads w) (total_files_processed w) (total_files_queued w).
Definition add_read (f : pystr) (w : world) : world :=
  World (outdir w) (f :: reads w) (total_files_processed w) (total_files_queued w).
Definition set_processed (n : Z) (w : world) : world :=
  World (outdir w) (reads w) n (total_files_queued w).
Definition set_queued (n : Z) (w : world) : world :=
  World (outdir w) (reads w) (total_files_processed w) n.

Inductive res (A : Type) : Type :=
  | Ok (a : A)
  | Raised (e : exn)
  | Hung.
Arguments Ok {A} a.
Arguments Raised {A} e.
Arguments Hung {A}.

Definition M (A : Type) : Type := world -> res A * world.

Definition ret {A} (a : A) : M A := fun w => (Ok a, w).
Definition raise {A} (e : exn) : M A := fun w => (Raised e, w).
Definition bind {A B} (m : M A) (k : A -> M B) : M B :=
  fun w =>
    match m w with
    | (Ok a, w') => k a w'
    | (Raised e, w') => (Raised e, w')
    | (Hung, w') => (Hung, w')
    end.

Notation "'let*' x ':=' m 'in' k" := (bind m (fun x => k))
  (at level 10, x name, m at level 100, k at level 200).

(** A [for] loop whose body updates the local counters [acc]. *)
Fixpoint for_fold {A S : Type} (xs : list A) (acc : S) (body : A -> S -> M S)
  : M S :=
  match xs with
  | [] => ret acc
  | x :: xs' => let* acc' := body x acc in for_fold xs' acc' body
  end.

(** A computation that leaves the state alone. *)
Definition lift {A} (r : res A) : M A := fun w => (r, w).

Definition DS_STORE : pystr := str ".DS_Store".

(** What the html2text module does on one input. *)
Inductive converted : Type :=
  | Text (t : pystr)
  | RaisesAttributeError
  | RaisesOther.

(** [random.sample(population, k)] draws [k] entries without replacement;
    [draws] are the raw numbers of the generator, one per entry drawn. *)
Fixpoint sample_go {A : Type} (draws : list nat) (pool : list A) (k : nat)
  : list A :=
  match k with
  | O => []
  | S k' =>
    let j := (hd O draws `mod` length pool)%nat in
    match pool !! j with
    | Some x => x :: sample_go (tl draws) (delete j pool) k'
    | None => []
    end
  end.

(** [l[0::n]] for a positive [n]; [skip] entries are passed over before the
    next one is taken. *)
Fixpoint stride_go {A : Type} (n skip : nat) (l : list A) : list A :=
  match l with
  | [] => []
  | x :: l' =>
    match skip with
    | O => x :: stride_go n (n - 1) l'
    | S s => stride_go n s l'
    end
  end.

Section Batch.

(** The html2text module, and which output paths can be opened for writing. *)
Variable html2text : option pystr -> converted.
Variable can_write : pystr -> bool.

(** [import_text(file)]: every exception is caught and gives [None]. *)
Definition import_text (f : file) : M (option pystr) :=
  fun w => (Ok (data f), add_read (name f) w).

(** [export_text(out_dir, export, filename)]: a failing write is caught;
    it is taken to fail at [open], before the file exists. *)
Definition export_text (export filename : pystr) : M unit :=
  fun w =>
    if can_write filename
    then (Ok tt, set_outdir (<[filename := export]> (outdir w)) w)
    else (Ok tt, w).

(** [html_to_markdown(content)]: only [AttributeError] is caught. *)
Definition html_to_markdown (content : option pystr) : res (option pystr) :=
  match html2text content with
  | Text t => Ok (Some t)
  | RaisesAttributeError => Ok None
  | RaisesOther => Raised ConversionError
  end.

(** The tool dispatch of [conversion_process]: the value of [export], an
    exception, or a loop that does not end within [fuel] turns. *)
Definition apply_tool (fuel : nat) (conversion_tool : pystr)
    (content : option pystr) : res (option pystr) :=
  if bool_decide (conversion_tool = str "1") then
    match html_slice fuel content with
    | OutOfFuel => Hung
    | Done export => Ok export
    end
  else if bool_decide (conversion_tool = str "2") then
    html_to_markdown content
  else if bool_decide (conversion_tool = str "3") then
    Ok (markdown_slice content)
  else Raised SystemExit.

(** [conversion_process(conversion_tool, file, out_directory)]. *)
Definition conversion_process (fuel : nat) (conversion_tool : pystr)
    (f : file) : M unit :=
  if negb (bool_decide (name f = DS_STORE)) then
    let* content := import_text f in
    let* export := lift (apply_tool fuel conversion_tool content) in
    match export with
    | Some e => export_text e (name f)
    | None => ret tt
    end
  else ret tt.

(** [conversion_progress(..)]; [init] is [status='init']. *)
Definition conversion_progress (init : bool) : M unit :=
  fun w =>
    (Ok tt, set_processed (if init then 0 else total_files_processed w + 1) w).

(** One unit of [pool.apply_async(conversion_process, .., callback=conversion_progress)]:
    the callback runs when the worker returns; an exception of the worker
    is kept in the unused result object and the callback is not run; a
    worker that exits or never returns leaves [pool.join()] waiting. *)
Definition pool_unit (fuel : nat) (conversion_tool : pystr) (f : file)
  : M unit :=
  fun w =>
    match conversion_process fuel conversion_tool f w with
    | (Ok _, w') => conversion_progress false w'
    | (Raised SystemExit, w') => (Hung, w')
    | (Raised _, w') => (Ok tt, w')
    | (Hung, w') => (Hung, w')
    end.

(** [text_conversion()] after its prompts.  [files] is the listing in
    submission order and [completed] the order in which the units finish.
    The submission loop only moves [total_files_queued] and the units
    only the rest of the state, so they are run one after the other. *)
Definition text_conversion (fuel : nat) (cpu_count : Z)
    (conversion_tool : pystr) (files completed : list file) : M unit :=
  if cpu_count - 1 <? 1 then raise ValueError
  else
    let* _ := conversion_progress true in
    let* _ := for_fold files 0 (fun _ num =>
                fun w => (Ok (num + 1), set_queued (num + 1) w)) in
    let* _ := for_fold completed tt (fun f _ =>
                pool_unit fuel conversion_tool f) in
    ret tt.

(** [len(content)]. *)
Definition py_len (content : option pystr) : M Z :=
  match content with
  | Some s => ret (len s)
  | None => raise TypeError
  end.

(** [export_long()] after its prompts; the value is [num_file]. *)
Definition export_long (files : list file) : M Z :=
  for_fold files 0 (fun f num_file =>
    if negb (bool_decide (name f = DS_STORE)) then
      let* content := import_text f in
      let* n := py_len content in
      if 500 <? n then
        let export := content in
        match export with
        | Some e =>
          let* _ := export_text e (name f) in
          ret (num_file + 1)
        | None => ret num_file
        end
      else ret num_file
    else ret num_file).

(** [random.sample(dir_list, n)]. *)
Definition random_sample (draws : list nat) (dir_list : list file) (n : Z)
  : M (list file) :=
  if (n <? 0) || (Z.of_nat (length dir_list) <? n) then raise ValueError
  else ret (sample_go draws dir_list (Z.to_nat n)).

(** [dir_list[0::n]]: a zero step raises, a negative step walks down from
    the first entry and so takes it alone. *)
Definition stride_slice (dir_list : list file) (n : Z) : M (list file) :=
  if n =? 0 then raise ValueError
  else if n <? 0 then ret (take 1 dir_list)
  else ret (stride_go (Z.to_nat n) O dir_list).

(** The loop of [pick_rand] over [directory.iterdir()]; paths are compared
    by name.  The value is [num_file]. *)
Definition pick_loop (picked_files files : list file) : M Z :=
  for_fold files 0 (fun f num_file =>
    if negb (bool_decide (name f = DS_STORE)) then
      if bool_decide (name f ∈ name <$> picked_files) then
        let* export := import_text f in
        match export with
        | Some e =>
          let* _ := export_text e (name f) in
          ret (num_file + 1)
        | None => ret num_file
        end
      else ret num_file
    else ret num_file).

(** [pick_rand()] after its prompts; [mode] and [n] are the two answers.
    The closing [print(+ f'..')] applies unary plus to a string. *)
Definition pick_rand (draws : list nat) (mode : pystr) (n : Z)
    (files : list file) : M unit :=
  let dir_list := files in
  let* picked :=
    if bool_decide (mode = str "r") then
      let* picked_files := random_sample draws dir_list n in
      ret (Some picked_files)
    else if bool_decide (mode = str "s") then
      let* picked_files := stride_slice dir_list n in
      ret (Some picked_files)
    else ret None in
  match picked with
  | None => ret tt
  | Some picked_files =>
    let* num_file := pick_loop picked_files files in
    raise TypeError
  end.

(** [file.name in quest_list]. *)
Definition py_in (sub : pystr) (container : option pystr) : M bool :=
  match container with
  | Some s => ret (contains sub s)
  | None => raise TypeError
  end.

(** [match_list()] after its prompts; [quest_list] is what [import_text]
    gave for the list file.  The value is [num_file]. *)
Definition match_list (quest_list : option pystr) (files : list file) : M Z :=
  for_fold files 0 (fun f num_file =>
    if negb (bool_decide (name f = DS_STORE)) then
      let* listed := py_in (name f) quest_list in
      if listed then
        let* export := import_text f in
        match export with
        | Some e =>
          let* _ := export_text e (name f) in
          ret (num_file + 1)
        | None => ret num_file
        end
      else ret num_file
    else ret num_file).

(** *** The loops, one entry at a time *)

(** What a selection loop ([pick_loop], [match_list]) writes under the
    name of [f] when [sel] is its test. *)
Definition copy_writes (sel : file → bool) (f : file) : option pystr :=
  if negb (bool_decide (name f = DS_STORE)) && sel f then
    match data f with
    | Some e => if can_write (name f) then Some e else None
    | None => None
    end
  else None.

(** What such a loop does to the state at [f]. *)
Definition copy_step (sel : file → bool) (w : world) (f : file) : world :=
  let w1 := if negb (bool_decide (name f = DS_STORE)) && sel f
            then add_read (name f) w else w in
  match copy_writes sel f with
  | Some e => set_outdir (<[name f := e]> (outdir w1)) w1
  | None => w1
  end.

(** What it does to [num_file] at [f]. *)
Definition copy_count (sel : file → bool) (num_file : Z) (f : file) : Z :=
  if negb (bool_decide (name f = DS_STORE)) && sel f then
    match data f with
    | Some _ => num_file + 1
    | None => num_file
    end
  else num_file.

(** The unit of [f] comes back to the pool: the worker returned or raised
    an exception that the pool catches. *)
Definition unit_comes_back (fuel : nat) (conversion_tool : pystr) (f : file)
  : bool :=
  bool_decide (name f = DS_STORE)
  || match apply_tool fuel conversion_tool (data f) with
     | Ok _ => true
     | Raised SystemExit => false
     | Raised _ => true
     | Hung => false
     end.

(** The worker of [f] returned, so the callback ran. *)
Definition unit_returns (fuel : nat) (conversion_tool : pystr) (f : file)
  : bool :=
  bool_decide (name f = DS_STORE)
  || match apply_tool fuel conversion_tool (data f) with
     | Ok _ => true
     | _ => false
     end.

(** What the unit of [f] writes under its name, if anything. *)
Definition unit_writes (fuel : nat) (conversion_tool : pystr) (f : file)
  : option pystr :=
  if bool_decide (name f = DS_STORE) then None
  else match apply_tool fuel conversion_tool (data f) with
       | Ok (Some e) => if can_write (name f) then Some e else None
       | _ => None
       end.

(** What a unit that comes back has done to the state. *)
Definition unit_step (fuel : nat) (conversion_tool : pystr)
    (w : world) (f : file) : world :=
  let w1 := if bool_decide (name f = DS_STORE) then w
            else add_read (name f) w in
  let w2 := match unit_writes fuel conversion_tool f with
            | Some e => set_outdir (<[name f := e]> (outdir w1)) w1
            | None => w1
            end in
  if unit_returns fuel conversion_tool f
  then set_processed (total_files_processed w2 + 1) w2
  else w2.

End Batch.

(** An empty output directory, nothing read, both counters at zero; a
    converter that gives back its input; a directory open for writing. *)
Definition w0 : world := World ∅ [] 0 0.
Definition no_html2text (c : option pystr) : converted :=
  match c with Some t => Text t | None => RaisesAttributeError end.
Definition always_writable (_ : pystr) : bool := true.

(** ** Vocabulary of the statements *)

(** [sub] occurs in [s] at offset [n]. *)
Definition occurs_at (sub s : pystr) (n : nat) : Prop :=
  (n ≤ length s)%nat ∧ sub `prefix_of` drop n s.

(** [n] is the first offset at or after [from] where [sub] occurs in [s]. *)
Definition next_at (sub s : pystr) (from n : nat) : Prop :=
  (from ≤ n)%nat ∧ occurs_at sub s n
  ∧ ∀ m, (from ≤ m < n)%nat → ¬ occurs_at sub s m.

(** [sub] does not occur in [s] at or after offset [from]. *)
Definition none_from (sub s : pystr) (from : nat) : Prop :=
  ∀ m, (from ≤ m)%nat → ¬ occurs_at sub s m.

(** [n] is the offset of the first occurrence of [sub] in [s]. *)
Definition first_at (sub s : pystr) (n : nat) : Prop := next_at sub s O n.

(** The two normalisations of [markdown_slice], in the order it applies them. *)
Definition normalise_progress (content : pystr) : pystr :=
  replace (str "## [Progress](javascript:)") (str "## Progress") content.
Definition normalise_completion (content : pystr) : pystr :=
  replace (str "## [Completion](javascript:)") (str "## Completion")
    (normalise_progress content).

(** What one block of [markdown_slice] takes for the heading [hd] searched
    in [c]: [c[i + len(hd):ii]], or nothing when [hd] is not found. *)
Definition section_text (hd c : pystr) : option pystr :=
  let i := find hd c in
  let ii := find_from (str "##") c (i + 1) in
  if i =? -1 then None else Some (slice c (i + len hd) ii).

(** [c] reads [pre ++ hd ++ body ++ "##" ++ rest] where this [hd] is the
    first one in [c] and this ["##"] the first one after the start of [hd]. *)
Definition delimited (hd c body : pystr) : Prop :=
  ∃ pre rest,
    c = pre ++ hd ++ body ++ str "##" ++ rest
    ∧ (∀ m, (m < length pre)%nat → ¬ occurs_at hd c m)
    ∧ (∀ m, (length pre < m < length pre + length hd + length body)%nat →
            ¬ occurs_at (str "##") c m).

(** A document whose Description holds a deeper-level subsection. *)
Definition subsection_doc : pystr :=
  str "## Description" ++ [nl] ++ str "Foo" ++ [nl]
  ++ str "### Sub" ++ [nl] ++ str "Bar" ++ [nl]
  ++ str "## Progress" ++ [nl] ++ str "P" ++ [nl]
  ++ str "## Completion" ++ [nl] ++ str "C" ++ [nl]
  ++ str "## Other".

(** The text between its Description heading and the next heading of the
    same level, ["## Progress"]. *)
Definition subsection_doc_description : pystr :=
  [nl] ++ str "Foo" ++ [nl] ++ str "### Sub" ++ [nl] ++ str "Bar" ++ [nl].

(** A document that ends inside its Description. *)
Definition trailing_description_doc : pystr := str "## Description" ++ [nl] ++ str "Foo".

(** Well-formed section text: stretches of plain text and closed tags. *)
Inductive piece : Type :=
  | Txt (t : pystr)
  | Tag (inner : pystr).

Definition angle_free (s : pystr) : Prop :=
  ("<"%char ∉ s) ∧ (">"%char ∉ s).

Definition piece_ok (p : piece) : Prop :=
  match p with
  | Txt t => angle_free t
  | Tag inner => angle_free inner
  end.

(** The markup of a list of pieces, its text alone, and its number of tags. *)
Fixpoint render (ps : list piece) : pystr :=
  match ps with
  | [] => []
  | Txt t :: ps' => t ++ render ps'
  | Tag inner :: ps' => str "<" ++ inner ++ str ">" ++ render ps'
  end.

Fixpoint text_of (ps : list piece) : pystr :=
  match ps with
  | [] => []
  | Txt t :: ps' => t ++ text_of ps'
  | Tag _ :: ps' => text_of ps'
  end.

Fixpoint tags (ps : list piece) : nat :=
  match ps with
  | [] => O
  | Txt _ :: ps' => tags ps'
  | Tag _ :: ps' => S (tags ps')
  end.

(** A page whose Description ends in a tag that is never closed. *)
Definition unclosed_tag_page : pystr := DESCRIPTION_H2 ++ str "Quest text <br".

(** A page whose Description starts with a tag. *)
Definition leading_tag_page : pystr :=
  DESCRIPTION_H2 ++ str "<p>Foo</p>" ++ str "<h2 class=" ++ [dquote]
  ++ str "heading-size-3" ++ [dquote] ++ str ">Progress</h2>".

(** An unreadable file followed by a long readable one. *)
Definition unreadable_then_long : list file :=
  [ File (str "a.txt") None; File (str "b.txt") (Some (repeat "x"%char 501)) ].

(** A page without a Description heading. *)
Definition headless_page_dir : list file :=
  [ File (str "quest.md") (Some (str "## Progress")) ].

(** The entries of the list text, one per line (the words of the
    specification, not of the code). *)
Fixpoint spec_parsed_entries (text : pystr) : list pystr :=
  match text with
  | [] => [[]]
  | c :: text' =>
    if bool_decide (c = nl) then [] :: spec_parsed_entries text'
    else match spec_parsed_entries text' with
         | e :: es => (c :: e) :: es
         | [] => [[c]]
         end
  end.

(** A list that names ["11.txt"], and a directory that holds ["1.txt"]. *)
Definition list_of_eleven : pystr := str "11.txt" ++ [nl].
Definition dir_of_one : list file := [ File (str "1.txt") (Some (str "x")) ].

(** The hidden artifact has been neither written nor read. *)
Definition ds_store_free (w : world) : Prop :=
  outdir w !! DS_STORE = None ∧ DS_STORE ∉ reads w.

(** The computation [m] keeps the property [P] of the state, however it ends. *)
Definition preserves {A} (P : world → Prop) (m : M A) : Prop :=
  ∀ w, P w → P (m w).2.

(** A directory of three readable files. *)
Definition three_files : list file :=
  [ File (str "1.txt") (Some (str "x"));
    File (str "2.txt") (Some (str "y"));
    File (str "3.txt") (Some (str "z")) ].

(** A directory for a markdown run: a full page, the hidden artifact, and
    a page without a Description heading. *)
Definition markdown_files : list file :=
  [ File (str "full.md") (Some three_sections_doc);
    File DS_STORE (Some (str "Bud1"));
    File (str "quest.md") (Some (str "## Progress")) ].

Section LengthFilter.

Variable can_write : pystr → bool.

(** What [export_long] writes under the name of [f], what it does to the
    state at a readable [f], and what it does to [num_file] there. *)
Definition long_writes (f : file) : option pystr :=
  if bool_decide (name f = DS_STORE) then None
  else match data f with
       | Some e => if (500 <? len e) && can_write (name f) then Some e else None
       | None => None
       end.

Definition long_step (w : world) (f : file) : world :=
  let w1 := if bool_decide (name f = DS_STORE) then w
            else add_read (name f) w in
  match long_writes f with
  | Some e => set_outdir (<[name f := e]> (outdir w1)) w1
  | None => w1
  end.

Definition long_count (num_file : Z) (f : file) : Z :=
  if bool_decide (name f = DS_STORE) then num_file
  else match data f with
       | Some e => if 500 <? len e then num_file + 1 else num_file
       | None => num_file
       end.

End LengthFilter.

(** A directory with a file of 500 characters and one of 501. *)
Definition threshold_files : list file :=
  [ File (str "short.txt") (Some (repeat "x"%char 500));
    File (str "long.txt") (Some (repeat "x"%char 501)) ].


(** The output directory holds [v] under the name [key]. *)
Definition keeps_entry (key : pystr) (v : option pystr) (w : world) : Prop :=
  outdir w !! key = v.

(** A directory nothing can be written for. *)
Definition never_writable (_ : pystr) : bool := false.

(** A document with a Description and a Completion and no Progress. *)
Definition no_progress_doc : pystr :=
  str "## Description" ++ [nl] ++ str "Foo" ++ [nl]
  ++ str "## Completion" ++ [nl] ++ str "Baz" ++ [nl]
  ++ str "## Other".

(** The linked forms of the two optional headings. *)
Definition LINKED_PROGRESS : pystr := str "## [Progress](javascript:)".
Definition LINKED_COMPLETION : pystr := str "## [Completion](javascript:)".

(** A document whose Progress heading is in its linked form. *)
Definition linked_progress_doc : pystr :=
  str "## Description" ++ [nl] ++ str "Foo" ++ [nl]
  ++ LINKED_PROGRESS ++ [nl] ++ str "Bar" ++ [nl]
  ++ str "## Other".

(** ** Facts about the string operations *)

Section StringFacts.

Implicit Types sub s pre post : pystr.

Lemma startswith_prefix sub s : startswith sub s = true ↔ sub `prefix_of` s.
Proof.
  revert s. induction sub as [|a sub IH]; intros [|b s]; simpl.
  - split; [intros _; apply prefix_nil | done].
  - split; [intros _; apply prefix_nil | done].
  - split; [done | intros H; by apply prefix_nil_not in H].
  - rewrite andb_true_iff, bool_decide_eq_true, IH. split.
    + intros [-> H]. by apply prefix_cons.
    + intros H. split; [by eapply prefix_cons_inv_1 | by eapply prefix_cons_inv_2].
Qed.

Lemma startswith_false sub s : startswith sub s = false ↔ ¬ sub `prefix_of` s.
Proof.
  rewrite <- startswith_prefix. destruct (startswith sub s); naive_solver.
Qed.

Lemma occurs_at_cons sub c s n :
  occurs_at sub (c :: s) (S n) ↔ occurs_at sub s n.
Proof. unfold occurs_at. simpl. split; intros [? ?]; split; auto; lia. Qed.

Lemma find_nat_Some sub s n :
  find_nat sub s = Some n ↔
  occurs_at sub s n ∧ ∀ m, (m < n)%nat → ¬ occurs_at sub s m.
Proof.
  revert n. induction s as [|c s IH]; intros n; simpl.
  - destruct (startswith sub []) eqn:E.
    + apply startswith_prefix in E. split.
      * intros [= <-]. split; [split; [simpl; lia | done] | intros; lia].
      * intros [[Hn _] _]. simpl in Hn. f_equal. lia.
    + apply startswith_false in E. split; [done |].
      intros [[Hn Hp] _]. simpl in Hn. assert (n = O) as -> by lia. done.
  - destruct (startswith sub (c :: s)) eqn:E.
    + apply startswith_prefix in E. split.
      * intros [= <-]. split; [split; [simpl; lia | done] | intros; lia].
      * intros [_ Hmin]. destruct n as [|n]; [done |].
        exfalso. apply (Hmin O); [lia |]. split; [simpl; lia | done].
    + apply startswith_false in E. rewrite fmap_Some. split.
      * intros (k & Hk & ->). apply IH in Hk as [Hocc Hmin]. split.
        -- by apply occurs_at_cons.
        -- intros [|m] Hm; [intros [_ ?]; done |].
           rewrite occurs_at_cons. apply Hmin. lia.
      * intros [Hocc Hmin]. destruct n as [|n].
        { destruct Hocc as [_ ?]. done. }
        exists n. split; [| done]. apply IH. split.
        -- by apply occurs_at_cons in Hocc.
        -- intros m Hm. rewrite <- (occurs_at_cons sub c). apply Hmin. lia.
Qed.

Lemma find_nat_None sub s :
  find_nat sub s = None ↔ ∀ m, ¬ occurs_at sub s m.
Proof.
  induction s as [|c s IH]; simpl.
  - destruct (startswith sub []) eqn:E.
    + apply startswith_prefix in E. split; [done |].
      intros H. exfalso. apply (H O). split; [simpl; lia | done].
    + apply startswith_false in E. split; [| done].
      intros _ m [Hm Hp]. simpl in Hm. assert (m = O) as -> by lia. done.
  - destruct (startswith sub (c :: s)) eqn:E.
    + apply startswith_prefix in E. split; [done |].
      intros H. exfalso. apply (H O). split; [simpl; lia | done].
    + apply startswith_false in E. rewrite fmap_None, IH. split.
      * intros H [|m]; [intros [_ ?]; done |]. rewrite occurs_at_cons. apply H.
      * intros H m. rewrite <- (occurs_at_cons sub c). apply H.
Qed.

Lemma occurs_at_drop sub s from m :
  (from ≤ length s)%nat →
  occurs_at sub (drop from s) m ↔ occurs_at sub s (from + m).
Proof.
  intros Hf. unfold occurs_at. rewrite length_drop, drop_drop.
  split; intros [? ?]; split; auto; lia.
Qed.

Lemma find_from_of_nat sub s from :
  (from ≤ length s)%nat →
  find_from sub s (Z.of_nat from) =
  match find_nat sub (drop from s) with
  | Some k => Z.of_nat (from + k)
  | None => -1
  end.
Proof.
  intros Hf. unfold find_from, len.
  destruct (Z.ltb_spec (Z.of_nat from) 0) as [?|_]; [lia |].
  destruct (Z.ltb_spec (Z.of_nat (length s)) (Z.of_nat from)) as [?|_]; [lia |].
  rewrite Nat2Z.id. destruct (find_nat sub (drop from s)); [f_equal; lia | done].
Qed.

Lemma find_from_next sub s from n :
  (from ≤ length s)%nat →
  find_from sub s (Z.of_nat from) = Z.of_nat n ↔ next_at sub s from n.
Proof.
  intros Hf. rewrite find_from_of_nat by done. unfold next_at.
  destruct (find_nat sub (drop from s)) as [k|] eqn:E.
  - apply find_nat_Some in E as [Hocc Hmin].
    apply occurs_at_drop in Hocc; [| done]. split.
    + intros H. assert (n = (from + k)%nat) as -> by lia.
      split; [lia |]. split; [done |]. intros m [Hm1 Hm2] Hm.
      apply (Hmin (m - from)%nat); [lia |].
      apply occurs_at_drop; [done |]. by replace (from + (m - from))%nat with m by lia.
    + intros (Hle & Hn & Hnmin).
      destruct (decide (n = from + k)%nat) as [->|Hne]; [done |]. exfalso.
      destruct (decide (n < from + k)%nat).
      * apply (Hmin (n - from)%nat); [lia |].
        apply occurs_at_drop; [done |]. by replace (from + (n - from))%nat with n by lia.
      * apply (Hnmin (from + k)%nat); [lia | done].
  - split; [lia |]. intros (Hle & Hn & _). exfalso.
    rewrite find_nat_None in E. apply (E (n - from)%nat).
    apply occurs_at_drop; [done |]. by replace (from + (n - from))%nat with n by lia.
Qed.

Lemma find_from_none sub s from :
  (from ≤ length s)%nat →
  find_from sub s (Z.of_nat from) = -1 ↔ none_from sub s from.
Proof.
  intros Hf. rewrite find_from_of_nat by done. unfold none_from.
  destruct (find_nat sub (drop from s)) as [k|] eqn:E.
  - split; [lia |]. intros H. exfalso.
    apply find_nat_Some in E as [Hocc _].
    apply occurs_at_drop in Hocc; [| done]. apply (H (from + k)%nat); [lia | done].
  - split; [| done]. intros _ m Hm Hocc. rewrite find_nat_None in E.
    apply (E (m - from)%nat). apply occurs_at_drop; [done |].
    by replace (from + (m - from))%nat with m by lia.
Qed.

Lemma find_first sub s n : find sub s = Z.of_nat n ↔ first_at sub s n.
Proof. apply (find_from_next sub s O). lia. Qed.

Lemma find_none sub s : find sub s = -1 ↔ none_from sub s O.
Proof. apply (find_from_none sub s O). lia. Qed.

(** [find] gives [-1] or an offset at which the whole of [sub] fits. *)
Lemma find_cases sub s :
  find sub s = -1 ∨
  ∃ n, find sub s = Z.of_nat n ∧ (n + length sub ≤ length s)%nat.
Proof.
  unfold find. change (find_from sub s 0) with (find_from sub s (Z.of_nat O)).
  rewrite (find_from_of_nat sub s O) by lia. rewrite drop_0.
  destruct (find_nat sub s) as [k|] eqn:E; [right | by left].
  exists k. split; [done |]. apply find_nat_Some in E as [[Hk [t Ht]] _].
  apply (f_equal length) in Ht. rewrite length_drop, length_app in Ht. lia.
Qed.

Lemma clip_of_nat (a n : nat) : clip (Z.of_nat a) (Z.of_nat n) = Z.of_nat (a `min` n).
Proof. unfold clip. destruct (Z.ltb_spec (Z.of_nat a) 0); lia. Qed.

Lemma slice_of_nat s (a b : nat) :
  (b ≤ length s)%nat →
  slice s (Z.of_nat a) (Z.of_nat b) = take (b - a) (drop a s).
Proof.
  intros Hb. unfold slice, len. rewrite !clip_of_nat.
  destruct (decide (a ≤ length s)%nat).
  - rewrite !Nat.min_l by lia. rewrite Nat2Z.id. f_equal. lia.
  - rewrite (Nat.min_r a) by lia. rewrite Nat2Z.id.
    rewrite (drop_ge s a), (drop_ge s (length s)) by lia. by rewrite !take_nil.
Qed.

(** A slice that ends at [-1] leaves out the last character. *)
Lemma slice_to_minus_one s (a : nat) :
  slice s (Z.of_nat a) (-1) = take (length s - 1 - a) (drop a s).
Proof.
  unfold slice, len. rewrite clip_of_nat. unfold clip at 1. simpl.
  destruct (decide (a ≤ length s)%nat).
  - rewrite Nat.min_l by lia. rewrite Nat2Z.id. f_equal. lia.
  - rewrite (Nat.min_r a) by lia. rewrite Nat2Z.id.
    rewrite (drop_ge s a), (drop_ge s (length s)) by lia. by rewrite !take_nil.
Qed.

Lemma slice_middle pre mid post :
  slice (pre ++ mid ++ post) (Z.of_nat (length pre))
        (Z.of_nat (length pre + length mid)) = mid.
Proof.
  rewrite slice_of_nat by (rewrite !length_app; lia).
  rewrite drop_app_length. replace (length pre + length mid - length pre)%nat
    with (length mid) by lia.
  by rewrite take_app_length.
Qed.

End StringFacts.

(** ** The markdown slicer *)

Section MarkdownFacts.

Implicit Types hd c body content : pystr.

Lemma find_from_none_intro sub s from :
  none_from sub s from → find_from sub s (Z.of_nat from) = -1.
Proof.
  intros H. destruct (decide (from ≤ length s)%nat).
  - by apply find_from_none.
  - unfold find_from, len.
    destruct (Z.ltb_spec (Z.of_nat from) 0) as [?|_]; [lia |].
    destruct (Z.ltb_spec (Z.of_nat (length s)) (Z.of_nat from)) as [_|?]; [done | lia].
Qed.

(** The three blocks of [markdown_slice] are three uses of [section_text]. *)
Lemma markdown_slice_sections content :
  markdown_slice (Some content) =
  d ← section_text (str "## Description") content;
  Some (d ++ default [] (section_text (str "## Progress") (normalise_progress content))
          ++ default [] (section_text (str "## Completion") (normalise_completion content))).
Proof.
  unfold markdown_slice, section_text, normalise_completion, normalise_progress.
  change (len (str "## Description")) with 14.
  change (len (str "## Progress")) with 11.
  change (len (str "## Completion")) with 13.
  destruct (find (str "## Description") content =? -1); simpl; [done |].
  repeat match goal with
         | |- context [negb (?x =? -1)] => destruct (x =? -1); simpl
         end;
    by rewrite ?app_nil_r, ?app_assoc.
Qed.

Lemma section_text_last hd c i :
  first_at hd c i → none_from (str "##") c (S i) →
  find_from (str "##") c (Z.of_nat i + 1) = -1
  ∧ section_text hd c =
    Some (take (length c - 1 - (i + length hd)) (drop (i + length hd) c)).
Proof.
  intros Hi Hnone. apply find_first in Hi.
  assert (find_from (str "##") c (Z.of_nat i + 1) = -1) as Hii.
  { replace (Z.of_nat i + 1) with (Z.of_nat (S i)) by lia.
    by apply find_from_none_intro. }
  split; [done |]. unfold section_text. rewrite Hi, Hii.
  destruct (Z.eqb_spec (Z.of_nat i) (-1)) as [?|_]; [lia |].
  f_equal. unfold len. rewrite <- Nat2Z.inj_add. apply slice_to_minus_one.
Qed.

Lemma section_text_delimited hd c body :
  hd ≠ [] → delimited hd c body → section_text hd c = Some body.
Proof.
  intros Hhd (pre & rest & -> & Hfirst & Hnext).
  set (c := pre ++ hd ++ body ++ str "##" ++ rest) in *.
  assert (length hd ≠ O) as Hlen by (by destruct hd).
  assert (find hd c = Z.of_nat (length pre)) as Hi.
  { apply find_first. split; [lia |]. split.
    - split; [unfold c; rewrite length_app; lia |].
      unfold c. rewrite drop_app_length. by apply prefix_app_r.
    - intros m [_ Hm]. by apply Hfirst. }
  assert (find_from (str "##") c (Z.of_nat (length pre) + 1)
          = Z.of_nat (length pre + length hd + length body)) as Hii.
  { replace (Z.of_nat (length pre) + 1) with (Z.of_nat (S (length pre))) by lia.
    apply find_from_next; [unfold c; rewrite !length_app; lia |].
    split; [lia |]. split.
    - split; [unfold c; rewrite !length_app; lia |].
      unfold c. rewrite !app_assoc, <- (app_assoc _ (str "##") rest).
      rewrite <- !length_app, drop_app_length. by apply prefix_app_r.
    - intros m Hm. apply Hnext. lia. }
  unfold section_text. rewrite Hi, Hii.
  destruct (Z.eqb_spec (Z.of_nat (length pre)) (-1)) as [?|_]; [lia |].
  f_equal. unfold len. rewrite <- Nat2Z.inj_add.
  unfold c. rewrite (app_assoc pre hd), <- (length_app pre hd).
  apply slice_middle.
Qed.

(** A range of offsets is checked for occurrences by running over it. *)
Lemma no_occurrence_check sub s (a n : nat) :
  forallb (λ m, negb (startswith sub (drop m s))) (seq a n) = true →
  ∀ m, (a ≤ m < a + n)%nat → ¬ occurs_at sub s m.
Proof.
  intros Hall m Hm [_ Hp]. rewrite forallb_forall in Hall.
  specialize (Hall m). rewrite in_seq in Hall. specialize (Hall Hm).
  apply startswith_prefix in Hp. by rewrite Hp in Hall.
Qed.

End MarkdownFacts.

(** C3, as the code has it: on the document of the claim, [markdown_slice]
    returns the three bodies in the order Description, Progress,
    Completion, each with the line breaks that surround it in the
    document, and nothing else. *)
Theorem markdown_slice_three_sections :
  markdown_slice (Some three_sections_doc) =
  Some (([nl] ++ str "Foo" ++ [nl]) ++ ([nl] ++ str "Bar" ++ [nl])
        ++ ([nl] ++ str "Baz" ++ [nl])).
Proof. reflexivity. Qed.

(** C3, as stated, fails: the result is not the bare ["Foo" + "Bar" + "Baz"]. *)
Lemma markdown_slice_three_sections_not_bare :
  markdown_slice (Some three_sections_doc) ≠ Some (str "Foo" ++ str "Bar" ++ str "Baz").
Proof. vm_compute. intros H. discriminate H. Qed.

(** C6, as the code has it: when each of the three headings is found
    (Progress and Completion after normalisation) and is followed by a
    later ["##"], [markdown_slice] returns, in order, the texts strictly
    between the end of each heading and the first ["##"] after that
    heading, at whatever level that ["##"] is. *)
Theorem markdown_slice_up_to_next_hashes content d p q :
  delimited (str "## Description") content d →
  delimited (str "## Progress") (normalise_progress content) p →
  delimited (str "## Completion") (normalise_completion content) q →
  markdown_slice (Some content) = Some (d ++ p ++ q).
Proof.
  intros Hd Hp Hq. rewrite markdown_slice_sections.
  assert (∀ t : string, t ≠ EmptyString → str t ≠ []) as Hne
    by (by intros [|? ?]).
  rewrite (section_text_delimited _ content d),
    (section_text_delimited _ (normalise_progress content) p),
    (section_text_delimited _ (normalise_completion content) q);
    try assumption; try (by apply Hne).
  reflexivity.
Qed.

Lemma markdown_slice_up_to_next_hashes_witness :
  markdown_slice (Some three_sections_doc) =
  Some (([nl] ++ str "Foo" ++ [nl]) ++ ([nl] ++ str "Bar" ++ [nl])
        ++ ([nl] ++ str "Baz" ++ [nl])).
Proof.
  apply (markdown_slice_up_to_next_hashes three_sections_doc).
  - exists [], (drop 21 three_sections_doc). split; [reflexivity |]. split.
    + simpl. intros m Hm. lia.
    + intros m Hm. apply (no_occurrence_check _ _ 1 18); [reflexivity |].
      simpl in Hm. lia.
  - exists (take 19 three_sections_doc), (drop 37 three_sections_doc). split; [reflexivity |]. split.
    + intros m Hm. apply (no_occurrence_check _ _ 0 19); [reflexivity |].
      simpl in Hm. lia.
    + intros m Hm. apply (no_occurrence_check _ _ 20 15); [reflexivity |].
      simpl in Hm. lia.
  - exists (take 35 three_sections_doc), (drop 55 three_sections_doc). split; [reflexivity |]. split.
    + intros m Hm. apply (no_occurrence_check _ _ 0 35); [reflexivity |].
      simpl in Hm. lia.
    + intros m Hm. apply (no_occurrence_check _ _ 36 17); [reflexivity |].
      simpl in Hm. lia.
Defined.

(** C6, as stated, fails: the Description of [subsection_doc] runs up to
    ["## Progress"] and holds a ["### Sub"] subsection, yet the slice
    stops at ["### Sub"] and the subsection is left out. *)
Lemma markdown_slice_stops_at_deeper_heading :
  (∃ rest, subsection_doc = str "## Description" ++ subsection_doc_description
                      ++ str "## Progress" ++ rest)
  ∧ markdown_slice (Some subsection_doc) =
    Some (([nl] ++ str "Foo" ++ [nl]) ++ ([nl] ++ str "P" ++ [nl])
          ++ ([nl] ++ str "C" ++ [nl]))
  ∧ markdown_slice (Some subsection_doc) ≠
    Some (subsection_doc_description ++ ([nl] ++ str "P" ++ [nl]) ++ ([nl] ++ str "C" ++ [nl])).
Proof.
  split; [| split].
  - eexists. reflexivity.
  - reflexivity.
  - vm_compute. intros H. discriminate H.
Qed.

(** C10: a heading found at offset [i] with no ["##"] after it makes the
    next-heading search give [-1], and the block takes the text from the
    end of the heading up to, and not including, the last character of
    the document; this holds for each of the three blocks of
    [markdown_slice]. *)
Theorem markdown_slice_last_section_drops_last_char content :
  markdown_slice (Some content) =
    (d ← section_text (str "## Description") content;
     Some (d ++ default [] (section_text (str "## Progress")
                              (normalise_progress content))
             ++ default [] (section_text (str "## Completion")
                              (normalise_completion content))))
  ∧ ∀ hd c i,
      (hd, c) ∈ [ (str "## Description", content);
                  (str "## Progress", normalise_progress content);
                  (str "## Completion", normalise_completion content) ] →
      first_at hd c i →
      none_from (str "##") c (S i) →
      find_from (str "##") c (Z.of_nat i + 1) = -1
      ∧ section_text hd c =
        Some (take (length c - 1 - (i + length hd)) (drop (i + length hd) c)).
Proof.
  split; [apply markdown_slice_sections |].
  intros hd c i _. apply section_text_last.
Qed.

Lemma markdown_slice_last_section_drops_last_char_witness :
  markdown_slice (Some trailing_description_doc) = Some ([nl] ++ str "Fo").
Proof.
  destruct (markdown_slice_last_section_drops_last_char trailing_description_doc) as [Heq Hlast].
  destruct (Hlast (str "## Description") trailing_description_doc O) as [_ Hsec].
  - apply list_elem_of_here.
  - apply find_first. reflexivity.
  - apply (find_from_none _ _ 1); [simpl; lia | reflexivity].
  - rewrite Heq, Hsec. reflexivity.
Defined.

(** ** The tag-stripping loop *)

Section HtmlFacts.

Implicit Types s t : pystr.

Lemma occurs_at_char (c : ascii) s m : occurs_at [c] s m ↔ s !! m = Some c.
Proof.
  unfold occurs_at. split.
  - intros [_ [k Hk]]. rewrite <- (Nat.add_0_r m), <- lookup_drop, Hk. done.
  - intros Hm. split; [apply lookup_lt_Some in Hm; lia |].
    rewrite (drop_S _ _ _ Hm). by apply prefix_cons, prefix_nil.
Qed.

Lemma find_char_none (c : ascii) s : find [c] s = -1 ↔ c ∉ s.
Proof.
  rewrite find_none. unfold none_from. split.
  - intros H Hin. apply list_elem_of_lookup in Hin as [m Hm].
    apply (H m); [lia |]. by apply occurs_at_char.
  - intros H m _ Hm. apply occurs_at_char in Hm. apply H.
    apply list_elem_of_lookup. eauto.
Qed.

Lemma slice_whole s : slice s 0 (len s) = s.
Proof.
  unfold len. change 0 with (Z.of_nat O). rewrite slice_of_nat by lia.
  rewrite drop_0, Nat.sub_0_r. apply take_ge. lia.
Qed.

Lemma slice_prefix s (k : nat) : slice s 0 (Z.of_nat k) = take k s.
Proof.
  unfold slice, len. change 0 with (Z.of_nat O). rewrite !clip_of_nat.
  simpl. rewrite drop_0, Z.sub_0_r, Nat2Z.id.
  destruct (decide (k ≤ length s)%nat).
  - by rewrite Nat.min_l by lia.
  - rewrite Nat.min_r by lia. rewrite !take_ge; [done | lia | lia].
Qed.

(** One turn of the loop on a text with an opening ['<'] past its start and
    no ['>'] at all leaves a text of the same kind. *)
Lemma unterminated_step t :
  0 < find (str "<") t → find (str ">") t = -1 →
  let t' := slice t 0 (find (str "<") t)
            ++ slice t (find (str ">") t + 1) (len t) in
  0 < find (str "<") t' ∧ find (str ">") t' = -1.
Proof.
  intros Hlt Hgt t'. unfold t'. clear t'. rewrite Hgt. simpl (-1 + 1).
  rewrite slice_whole.
  destruct (find_cases (str "<") t) as [E|(k & Ek & _)]; [lia |].
  rewrite Ek in *. rewrite slice_prefix.
  pose proof (proj1 (find_first _ _ _) Ek) as (_ & Hocc & Hmin).
  apply occurs_at_char in Hocc.
  assert (k ≤ length t)%nat as Hk by (apply lookup_lt_Some in Hocc; lia).
  split.
  - destruct (find_cases (str "<") (take k t ++ t)) as [E|(n & En & _)].
    + exfalso. apply find_char_none in E. apply E.
      apply elem_of_app. right. by eapply list_elem_of_lookup_2.
    + rewrite En. destruct n as [|n]; [| lia]. exfalso.
      apply find_first in En as (_ & Ho & _). apply occurs_at_char in Ho.
      rewrite lookup_app_l in Ho by (rewrite length_take; lia).
      rewrite lookup_take_lt in Ho by lia.
      apply (Hmin O); [lia |]. by apply occurs_at_char.
  - apply find_char_none. apply find_char_none in Hgt.
    intros [Hin|Hin]%elem_of_app; [| done].
    apply elem_of_take in Hin as (i & Hi & _).
    apply Hgt. by eapply list_elem_of_lookup_2.
Qed.

Lemma strip_loop_enter fuel t :
  0 < find (str "<") t →
  strip_loop fuel t =
  match fuel with
  | O => OutOfFuel
  | S fuel' =>
    strip_loop fuel' (slice t 0 (find (str "<") t)
                      ++ slice t (find (str ">") t + 1) (len t))
  end.
Proof.
  intros H. apply Z.ltb_lt in H. destruct fuel; simpl;
    change (find ["<"%char] t) with (find (str "<") t); by rewrite H.
Qed.

(** The loop never ends on an unterminated tag that is not the first
    character of the text. *)
Lemma strip_loop_unterminated fuel t :
  0 < find (str "<") t → find (str ">") t = -1 →
  strip_loop fuel t = OutOfFuel.
Proof.
  revert t. induction fuel as [|fuel IH]; intros t Hlt Hgt;
    (rewrite strip_loop_enter by done); [done |].
  apply IH; by apply unterminated_step.
Qed.

(** The loop is not entered when the first ['<'] is the first character. *)
Lemma strip_loop_not_entered fuel t :
  find (str "<") t ≤ 0 → strip_loop fuel t = Done t.
Proof.
  intros H. assert ((0 <? find (str "<") t) = false) as E by (apply Z.ltb_ge; lia).
  destruct fuel; simpl;
    change (find ["<"%char] t) with (find (str "<") t); by rewrite E.
Qed.

Lemma find_char_at (c : ascii) (pre post : pystr) :
  c ∉ pre → find [c] (pre ++ c :: post) = Z.of_nat (length pre).
Proof.
  intros Hpre. apply find_first. split; [lia |]. split.
  - apply occurs_at_char. by rewrite list_lookup_middle.
  - intros m [_ Hm] Hocc. apply occurs_at_char in Hocc.
    rewrite lookup_app_l in Hocc by done.
    apply Hpre. by eapply list_elem_of_lookup_2.
Qed.

Lemma angle_free_app s t : angle_free s → angle_free t → angle_free (s ++ t).
Proof.
  intros [? ?] [? ?]. split; intros [?|?]%elem_of_app; done.
Qed.

Lemma angle_free_text_of ps : Forall piece_ok ps → angle_free (text_of ps).
Proof.
  induction 1 as [|[t|inner] ps Hp _ IH]; simpl.
  - split; apply not_elem_of_nil.
  - by apply angle_free_app.
  - done.
Qed.

(** After some leading plain text, the loop removes every closed tag of a
    well-formed text, one per turn, and ends. *)
Lemma strip_loop_well_formed ps :
  ∀ t0 fuel,
    t0 ≠ [] → angle_free t0 → Forall piece_ok ps → (tags ps ≤ fuel)%nat →
    strip_loop fuel (t0 ++ render ps) = Done (t0 ++ text_of ps).
Proof.
  induction ps as [|[t|inner] ps IH]; intros t0 fuel Hne Ht0 Hok Hfuel;
    cbn [render text_of tags] in *.
  - apply strip_loop_not_entered. rewrite app_nil_r.
    destruct Ht0 as [Hlt _]. apply (find_char_none "<"%char) in Hlt.
    change (str "<") with ["<"%char]. lia.
  - apply Forall_cons in Hok as [Ht Hok]. rewrite !app_assoc.
    apply IH; [by destruct t0 | by apply angle_free_app | done | done].
  - apply Forall_cons in Hok as [[Hi1 Hi2] Hok]. destruct Ht0 as [Ht1 Ht2].
    destruct fuel as [|fuel]; [lia |].
    assert (find (str "<") (t0 ++ str "<" ++ inner ++ str ">" ++ render ps)
            = Z.of_nat (length t0)) as Hk.
    { by apply (find_char_at "<"%char). }
    assert (find (str ">") (t0 ++ str "<" ++ inner ++ str ">" ++ render ps)
            = Z.of_nat (length (t0 ++ str "<" ++ inner))) as Hl.
    { replace (t0 ++ str "<" ++ inner ++ str ">" ++ render ps)
        with ((t0 ++ str "<" ++ inner) ++ ">"%char :: render ps)
        by (by rewrite <- !app_assoc).
      apply (find_char_at ">"%char).
      intros [?|[Hc|?]%elem_of_app]%elem_of_app; [done | | done].
      apply list_elem_of_singleton in Hc. discriminate Hc. }
    rewrite strip_loop_enter by (rewrite Hk; destruct t0; [done | simpl; lia]).
    rewrite Hk, Hl, slice_prefix, take_app_length.
    replace (Z.of_nat (length (t0 ++ str "<" ++ inner)) + 1)
      with (Z.of_nat (length (t0 ++ str "<" ++ inner ++ str ">")))
      by (rewrite !length_app; simpl; lia).
    unfold len. rewrite slice_of_nat by done.
    replace (t0 ++ str "<" ++ inner ++ str ">" ++ render ps)
      with ((t0 ++ str "<" ++ inner ++ str ">") ++ render ps)
      by (by rewrite <- !app_assoc).
    rewrite drop_app_length, take_ge by (rewrite !length_app; lia).
    apply IH; [done | done | done | lia].
Qed.

(** X2 (where C2 does hold): a well-formed Description that starts with plain
    text and is followed by another heading comes back as its text alone,
    free of ['<'] and ['>'], as soon as the loop is given one turn per tag. *)
Lemma html_slice_well_formed content pre t0 ps rest fuel :
  content = pre ++ DESCRIPTION_H2 ++ (t0 ++ render ps) ++ str "<h2" ++ rest →
  first_at DESCRIPTION_H2 content (length pre) →
  first_at (str "<h2") ((t0 ++ render ps) ++ str "<h2" ++ rest)
    (length (t0 ++ render ps)) →
  t0 ≠ [] → angle_free t0 → Forall piece_ok ps → (tags ps ≤ fuel)%nat →
  html_slice fuel (Some content) = Done (Some (t0 ++ text_of ps))
  ∧ angle_free (t0 ++ text_of ps).
Proof.
  intros -> Hi Hj Hne Ht0 Hok Hfuel.
  split; [| by apply angle_free_app, angle_free_text_of].
  apply find_first in Hi. apply find_first in Hj.
  unfold html_slice. rewrite Hi.
  destruct (Z.eqb_spec (Z.of_nat (length pre)) (-1)) as [?|_]; [lia |].
  assert (slice (pre ++ DESCRIPTION_H2 ++ (t0 ++ render ps) ++ str "<h2" ++ rest)
            (Z.of_nat (length pre) + 43)
            (len (pre ++ DESCRIPTION_H2 ++ (t0 ++ render ps) ++ str "<h2" ++ rest))
          = (t0 ++ render ps) ++ str "<h2" ++ rest) as ->.
  { change 43 with (Z.of_nat (length DESCRIPTION_H2)).
    rewrite <- Nat2Z.inj_add, <- length_app. unfold len.
    rewrite slice_of_nat by done. rewrite (app_assoc pre).
    rewrite drop_app_length. apply take_ge. rewrite !length_app. lia. }
  rewrite Hj, slice_prefix, take_app_length.
  by rewrite strip_loop_well_formed.
Qed.

End HtmlFacts.

Lemma html_slice_strips_after_leading_text :
  html_slice 2 (Some (DESCRIPTION_H2 ++ str "Bring <b>ten</b> pelts."
                        ++ str "<h2>Progress</h2>"))
  = Done (Some (str "Bring ten pelts."))
  ∧ angle_free (str "Bring ten pelts.").
Proof.
  apply (html_slice_well_formed _ [] (str "Bring ")
           [Tag (str "b"); Txt (str "ten"); Tag (str "/b"); Txt (str " pelts.")]
           (str ">Progress</h2>")).
  - reflexivity.
  - apply find_first. reflexivity.
  - apply find_first. reflexivity.
  - intros H. discriminate H.
  - split; apply (bool_decide_unpack _); vm_compute; exact I.
  - repeat constructor; apply (bool_decide_unpack _); vm_compute; exact I.
  - simpl. lia.
Defined.

(** C1 fails on the code: [unclosed_tag_page] has a Description whose text ends in
    an unclosed ["<br"]; whatever the number of turns allowed, the loop of
    [html_slice] has not finished, so nothing is returned. *)
Theorem html_slice_unterminated_tag_never_returns :
  ∀ fuel, html_slice fuel (Some unclosed_tag_page) = OutOfFuel.
Proof.
  intros fuel. unfold html_slice.
  assert (find DESCRIPTION_H2 unclosed_tag_page = 0) as -> by reflexivity.
  change (0 =? -1) with false. cbv iota.
  rewrite strip_loop_unterminated; [done | reflexivity | reflexivity].
Qed.

(** C2 fails on the code: the Description of [leading_tag_page] is
    ["<p>Foo</p>"], well formed and followed by another heading, and
    [html_slice] returns it with its tags. *)
Theorem html_slice_keeps_leading_tag :
  ∀ fuel, html_slice fuel (Some leading_tag_page) = Done (Some (str "<p>Foo</p>")).
Proof.
  intros fuel. unfold html_slice.
  assert (find DESCRIPTION_H2 leading_tag_page = 0) as -> by reflexivity.
  change (0 =? -1) with false. cbv iota.
  rewrite strip_loop_not_entered; [reflexivity |].
  vm_compute. intros H. discriminate H.
Qed.

(** ** The batch runs *)

Section BatchFacts.

Variable html2text : option pystr → converted.
Variable can_write : pystr → bool.

(** *** Properties kept by every step *)

Section Preservation.

Variable P : world → Prop.

Lemma preserves_ret {A} (a : A) : preserves P (ret a).
Proof. by intros w Hw. Qed.

Lemma preserves_raise {A} (e : exn) : preserves P (raise (A := A) e).
Proof. by intros w Hw. Qed.

Lemma preserves_lift {A} (r : res A) : preserves P (lift r).
Proof. by intros w Hw. Qed.

Lemma preserves_bind {A B} (m : M A) (k : A → M B) :
  preserves P m → (∀ a, preserves P (k a)) → preserves P (bind m k).
Proof.
  intros Hm Hk w Hw. unfold bind. specialize (Hm w Hw).
  destruct (m w) as [[a|e|] w1]; simpl in *; [by apply Hk | done | done].
Qed.

Lemma preserves_for_fold {A S} (xs : list A) (body : A → S → M S) :
  (∀ x acc, preserves P (body x acc)) →
  ∀ acc, preserves P (for_fold xs acc body).
Proof.
  intros Hbody. induction xs as [|x xs IH]; intros acc; simpl.
  - apply preserves_ret.
  - apply preserves_bind; [apply Hbody | intros a; apply IH].
Qed.

End Preservation.

Lemma import_text_ds_store_free f :
  name f ≠ DS_STORE → preserves ds_store_free (import_text f).
Proof.
  intros Hne w [Ho Hr]. split; simpl; [done |].
  intros [?|?]%elem_of_cons; [by apply Hne | done].
Qed.

Lemma export_text_ds_store_free e filename :
  filename ≠ DS_STORE → preserves ds_store_free (export_text can_write e filename).
Proof.
  intros Hne w [Ho Hr]. unfold export_text.
  destruct (can_write filename); simpl; [| done].
  split; simpl; [| done]. by rewrite lookup_insert_ne.
Qed.

Ltac preserves_steps :=
  repeat first
    [ apply preserves_ret
    | apply preserves_raise
    | apply preserves_lift
    | apply import_text_ds_store_free; assumption
    | apply export_text_ds_store_free; assumption
    | apply preserves_bind; [| intros ?]
    | match goal with
      | |- preserves _ (if ?b then _ else _) => destruct b
      | |- preserves _ (match ?x with Some _ => _ | None => _ end) => destruct x
      end ].

Lemma conversion_process_ds_store_free fuel tool f :
  preserves ds_store_free (conversion_process html2text can_write fuel tool f).
Proof.
  unfold conversion_process. case_bool_decide as Hname; simpl; preserves_steps.
Qed.

Lemma pool_unit_ds_store_free fuel tool f :
  preserves ds_store_free (pool_unit html2text can_write fuel tool f).
Proof.
  intros w Hw. unfold pool_unit.
  pose proof (conversion_process_ds_store_free fuel tool f w Hw) as H.
  destruct (conversion_process _ _ _ _ _ w) as [[[]|[]|] w1]; simpl in *;
    done.
Qed.

Lemma text_conversion_ds_store_free fuel cpu_count tool files completed :
  preserves ds_store_free
    (text_conversion html2text can_write fuel cpu_count tool files completed).
Proof.
  unfold text_conversion. destruct (cpu_count - 1 <? 1); [apply preserves_raise |].
  apply preserves_bind; [| intros _; apply preserves_bind;
                             [| intros _; apply preserves_bind;
                                  [| intros _; apply preserves_ret]]].
  - intros w [? ?]. by split.
  - apply preserves_for_fold. intros _ num w [? ?]. by split.
  - apply preserves_for_fold. intros f _. apply pool_unit_ds_store_free.
Qed.

Lemma export_long_ds_store_free files :
  preserves ds_store_free (export_long can_write files).
Proof.
  apply preserves_for_fold. intros f num_file.
  case_bool_decide as Hname; simpl; [apply preserves_ret |].
  apply preserves_bind; [by apply import_text_ds_store_free | intros content].
  apply preserves_bind; [destruct content; preserves_steps | intros n].
  preserves_steps.
Qed.

Lemma pick_loop_ds_store_free picked_files files :
  preserves ds_store_free (pick_loop can_write picked_files files).
Proof.
  apply preserves_for_fold. intros f num_file.
  case_bool_decide as Hname; simpl; preserves_steps.
Qed.

Lemma pick_rand_ds_store_free draws mode n files :
  preserves ds_store_free (pick_rand can_write draws mode n files).
Proof.
  unfold pick_rand. apply preserves_bind.
  - unfold random_sample, stride_slice. preserves_steps.
  - intros [picked_files|]; [| apply preserves_ret].
    apply preserves_bind; [apply pick_loop_ds_store_free | intros _].
    apply preserves_raise.
Qed.

Lemma match_list_ds_store_free quest_list files :
  preserves ds_store_free (match_list can_write quest_list files).
Proof.
  apply preserves_for_fold. intros f num_file.
  case_bool_decide as Hname; simpl; [apply preserves_ret |].
  apply preserves_bind; [destruct quest_list; preserves_steps | intros listed].
  preserves_steps.
Qed.

(** C9: in each of the four modes, under any tool, any selection and any
    answers, a run that starts with no [.DS_Store] in the output
    directory and none read ends, or stops, with none written and none
    read. *)
Theorem ds_store_never_read_nor_written w :
  ds_store_free w →
  (∀ fuel cpu_count tool files completed,
     ds_store_free
       (text_conversion html2text can_write fuel cpu_count tool files completed w).2)
  ∧ (∀ files, ds_store_free (export_long can_write files w).2)
  ∧ (∀ draws mode n files,
       ds_store_free (pick_rand can_write draws mode n files w).2)
  ∧ (∀ quest_list files,
       ds_store_free (match_list can_write quest_list files w).2).
Proof.
  intros Hw. repeat split; intros.
  all: first [ by apply text_conversion_ds_store_free
             | by apply export_long_ds_store_free
             | by apply pick_rand_ds_store_free
             | by apply match_list_ds_store_free ].
Qed.

(** *** Loops as folds *)

Lemma for_fold_foldl {A S} (xs : list A) (body : A → S → M S)
    (upd : S → A → S) (step : world → A → world) :
  (∀ x acc w, x ∈ xs → body x acc w = (Ok (upd acc x), step w x)) →
  ∀ acc w, for_fold xs acc body w = (Ok (foldl upd acc xs), foldl step w xs).
Proof.
  induction xs as [|x xs IH]; intros Hbody acc w; simpl; [done |].
  unfold bind. rewrite Hbody by left. apply IH.
  intros y acc' w' Hy. apply Hbody. by right.
Qed.

Lemma fold_outdir_other (step : world → file → world)
    (wr : file → option pystr) :
  (∀ w f, outdir (step w f) =
          match wr f with
          | Some e => <[name f := e]> (outdir w)
          | None => outdir w
          end) →
  ∀ files w key, key ∉ name <$> files →
    outdir (foldl step w files) !! key = outdir w !! key.
Proof.
  intros Hstep. induction files as [|g files IH]; intros w key Hkey; simpl;
    [done |].
  rewrite fmap_cons, not_elem_of_cons in Hkey. destruct Hkey as [Hg Hkey].
  rewrite IH by done. rewrite Hstep.
  destruct (wr g); [by rewrite lookup_insert_ne | done].
Qed.

(** With distinct names, what is found under the name of [f] after the
    loop is what the step of [f] wrote, or what was there before. *)
Lemma fold_outdir_lookup (step : world → file → world)
    (wr : file → option pystr) :
  (∀ w f, outdir (step w f) =
          match wr f with
          | Some e => <[name f := e]> (outdir w)
          | None => outdir w
          end) →
  ∀ files w f, NoDup (name <$> files) → f ∈ files →
    outdir (foldl step w files) !! name f =
    match wr f with
    | Some e => Some e
    | None => outdir w !! name f
    end.
Proof.
  intros Hstep. induction files as [|g files IH]; intros w f Hnd Hin; simpl.
  - by apply elem_of_nil in Hin.
  - rewrite fmap_cons in Hnd. apply NoDup_cons in Hnd as [Hg Hnd].
    apply elem_of_cons in Hin as [->|Hin].
    + rewrite (fold_outdir_other step wr Hstep) by done. rewrite Hstep.
      destruct (wr g); [by rewrite lookup_insert_eq | done].
    + rewrite IH by done. destruct (wr f); [done |]. rewrite Hstep.
      destruct (wr g); [| done]. rewrite lookup_insert_ne; [done |].
      intros Heq. apply Hg. rewrite Heq. by apply list_elem_of_fmap_2.
Qed.

Lemma copy_step_outdir sel w f :
  outdir (copy_step can_write sel w f) =
  match copy_writes can_write sel f with
  | Some e => <[name f := e]> (outdir w)
  | None => outdir w
  end.
Proof.
  unfold copy_step.
  destruct (copy_writes can_write sel f);
    by destruct (negb (bool_decide (name f = DS_STORE)) && sel f).
Qed.

Lemma match_list_fold quest_list files w :
  match_list can_write (Some quest_list) files w =
  ( Ok (foldl (copy_count (λ f, contains (name f) quest_list)) 0 files),
    foldl (copy_step can_write (λ f, contains (name f) quest_list)) w files ).
Proof.
  apply for_fold_foldl. intros f num_file w' _.
  unfold copy_step, copy_writes, copy_count.
  destruct (bool_decide (name f = DS_STORE)); simpl; [done |].
  unfold bind; simpl. destruct (contains (name f) quest_list); simpl; [| done].
  destruct (data f); simpl; [| done].
  unfold export_text. by destruct (can_write (name f)).
Qed.

Lemma pick_loop_fold picked_files files w :
  pick_loop can_write picked_files files w =
  ( Ok (foldl (copy_count (λ f, bool_decide (name f ∈ name <$> picked_files)))
          0 files),
    foldl (copy_step can_write
             (λ f, bool_decide (name f ∈ name <$> picked_files))) w files ).
Proof.
  apply for_fold_foldl. intros f num_file w' _.
  unfold copy_step, copy_writes, copy_count.
  destruct (bool_decide (name f = DS_STORE)); simpl; [done |].
  destruct (bool_decide (name f ∈ name <$> picked_files)); simpl; [| done].
  unfold bind; simpl. destruct (data f); simpl; [| done].
  unfold export_text. by destruct (can_write (name f)).
Qed.

(** [sub in s] holds exactly when [s] reads [pre + sub + post]. *)
Lemma contains_spec (sub s : pystr) :
  contains sub s = true ↔ ∃ pre post, s = pre ++ sub ++ post.
Proof.
  unfold contains. split.
  - destruct (find_nat sub s) as [n|] eqn:E; [intros _ | done].
    apply find_nat_Some in E as [[_ [post Hpost]] _].
    exists (take n s), post. by rewrite <- Hpost, take_drop.
  - intros (pre & post & ->).
    destruct (find_nat sub (pre ++ sub ++ post)) eqn:E; [done |]. exfalso.
    rewrite find_nat_None in E. apply (E (length pre)). split.
    + rewrite length_app. lia.
    + rewrite drop_app_length. by apply prefix_app_r.
Qed.

(** C7, as the code has it: in name-list mode a readable, writable input
    file other than [.DS_Store] is copied to the output directory exactly
    when its name occurs as a substring of the text of the list file. *)
Theorem match_list_copies_names_found_in_text quest_list files w f e :
  NoDup (name <$> files) →
  f ∈ files →
  name f ≠ DS_STORE →
  data f = Some e →
  can_write (name f) = true →
  outdir w !! name f = None →
  ∃ num_file w',
    match_list can_write (Some quest_list) files w = (Ok num_file, w')
    ∧ (outdir w' !! name f = Some e
       ↔ ∃ pre post, quest_list = pre ++ name f ++ post).
Proof.
  intros Hnd Hin Hname Hdata Hwr Hnew. eexists _, _.
  split; [apply match_list_fold |].
  rewrite (fold_outdir_lookup _ _ (copy_step_outdir _)) by done.
  rewrite <- contains_spec. unfold copy_writes.
  rewrite Hdata, Hwr, Hnew, bool_decide_eq_false_2 by done. simpl.
  destruct (contains (name f) quest_list); naive_solver.
Qed.

(** *** Random sampling *)

Lemma sample_go_length {A} (draws : list nat) (pool : list A) (k : nat) :
  (k ≤ length pool)%nat → length (sample_go draws pool k) = k.
Proof.
  revert draws pool. induction k as [|k IH]; intros draws pool Hk; simpl;
    [done |].
  destruct (lookup_lt_is_Some_2 pool (hd O draws `mod` length pool)%nat) as [x Hx].
  { apply Nat.mod_upper_bound. lia. }
  rewrite Hx. simpl. f_equal. apply IH.
  rewrite length_delete by eauto. lia.
Qed.

Lemma sample_go_submseteq {A} (draws : list nat) (pool : list A) (k : nat) :
  sample_go draws pool k ⊆+ pool.
Proof.
  revert draws pool. induction k as [|k IH]; intros draws pool; simpl.
  - apply submseteq_nil_l.
  - destruct (pool !! (hd O draws `mod` length pool)%nat) as [x|] eqn:Hx;
      [| apply submseteq_nil_l].
    trans (x :: delete (hd O draws `mod` length pool)%nat pool).
    + by apply submseteq_skip.
    + apply Permutation_submseteq. symmetry. by apply delete_Permutation.
Qed.

Lemma NoDup_of_submseteq {A} (l k : list A) : l ⊆+ k → NoDup k → NoDup l.
Proof.
  intros [r Hr]%submseteq_Permutation Hk. rewrite Hr in Hk.
  by apply NoDup_app in Hk as [? _].
Qed.

(** C8: asked for more files than the listing has, [pick_rand] raises
    [ValueError] out of [random.sample] and leaves the state as it was;
    asked for [n] files out of at least [n], it draws, before the loop
    and for all of it, a list of exactly [n] entries of the listing with
    distinct names, and the loop copies by membership in that list. *)
Theorem pick_rand_random_sample draws n files :
  (Z.of_nat (length files) < n →
   ∀ w, pick_rand can_write draws (str "r") n files w = (Raised ValueError, w))
  ∧ (0 ≤ n ≤ Z.of_nat (length files) →
     NoDup (name <$> files) →
     ∃ picked_files,
       Z.of_nat (length picked_files) = n
       ∧ NoDup (name <$> picked_files)
       ∧ picked_files ⊆ files
       ∧ ∀ w, pick_rand can_write draws (str "r") n files w =
              (Raised TypeError, (pick_loop can_write picked_files files w).2)).
Proof.
  split.
  - intros Hn w. unfold pick_rand, random_sample, bind.
    rewrite bool_decide_eq_true_2 by done.
    replace ((n <? 0) || (Z.of_nat (length files) <? n)) with true; [done |].
    symmetry. apply orb_true_iff. right. by apply Z.ltb_lt.
  - intros Hn Hnd. exists (sample_go draws files (Z.to_nat n)).
    pose proof (sample_go_submseteq draws files (Z.to_nat n)) as Hsub.
    split; [| split; [| split]].
    + rewrite sample_go_length by lia. lia.
    + eapply NoDup_of_submseteq; [| exact Hnd]. by apply fmap_submseteq.
    + intros x Hx. by eapply elem_of_submseteq.
    + intros w. unfold pick_rand, random_sample, bind.
      rewrite bool_decide_eq_true_2 by done.
      replace ((n <? 0) || (Z.of_nat (length files) <? n)) with false.
      * simpl. by destruct (pick_loop _ _ _ w) as [[?| |] ?] eqn:E;
          rewrite pick_loop_fold in E; simplify_eq.
      * symmetry. apply orb_false_iff. split; [apply Z.ltb_ge | apply Z.ltb_ge]; lia.
Qed.

(** *** The conversion pool *)

Lemma pool_unit_step fuel tool f w :
  unit_comes_back html2text fuel tool f = true →
  pool_unit html2text can_write fuel tool f w =
  (Ok tt, unit_step html2text can_write fuel tool w f).
Proof.
  unfold unit_comes_back, pool_unit, conversion_process, unit_step,
    unit_writes, unit_returns.
  destruct (bool_decide (name f = DS_STORE)); simpl; [done |].
  unfold bind, lift; simpl.
  destruct (apply_tool html2text fuel tool (data f)) as [[e|]|[]|]; simpl;
    try done.
  unfold export_text. by destruct (can_write (name f)).
Qed.

Lemma unit_step_outdir fuel tool w f :
  outdir (unit_step html2text can_write fuel tool w f) =
  match unit_writes html2text can_write fuel tool f with
  | Some e => <[name f := e]> (outdir w)
  | None => outdir w
  end.
Proof.
  unfold unit_step.
  destruct (unit_writes html2text can_write fuel tool f),
    (unit_returns html2text fuel tool f),
    (bool_decide (name f = DS_STORE)); done.
Qed.

Lemma fold_unit_step_processed fuel tool files w :
  total_files_processed
    (foldl (unit_step html2text can_write fuel tool) w files) =
  total_files_processed w
  + Z.of_nat (length (filter (λ f, unit_returns html2text fuel tool f = true)
                        files)).
Proof.
  revert w. induction files as [|f files IH]; intros w; simpl; [lia |].
  rewrite IH, filter_cons. unfold unit_step.
  destruct (unit_returns html2text fuel tool f) eqn:E.
  - rewrite decide_True by done.
    destruct (unit_writes html2text can_write fuel tool f),
      (bool_decide (name f = DS_STORE)); simpl; lia.
  - rewrite decide_False by done.
    destruct (unit_writes html2text can_write fuel tool f),
      (bool_decide (name f = DS_STORE)); simpl; lia.
Qed.

(** The submission loop moves [total_files_queued] and nothing else. *)
Lemma queue_loop_state {A} (files : list A) num w :
  ∃ num' queued,
    for_fold files num
      (λ _ num, λ w, (Ok (num + 1), set_queued (num + 1) w)) w =
    (Ok num', set_queued queued w).
Proof.
  revert num w. induction files as [|f files IH]; intros num w; simpl.
  - exists num, (total_files_queued w). by destruct w.
  - unfold bind. destruct (IH (num + 1) (set_queued (num + 1) w))
      as (num' & queued & ->).
    by exists num', queued.
Qed.

(** C5, as the code has it: in a conversion run whose units all come
    back, a present result of a writable file other than [.DS_Store] is
    found in the output directory under the name of the file, an absent
    result leaves the directory as it was under that name, and the
    processed total counts every unit whose worker returned, with a
    present result, with an absent one, or for [.DS_Store]. *)
Theorem conversion_writes_present_counts_returned
    fuel cpu_count tool files completed w :
  1 ≤ cpu_count - 1 →
  completed ≡ₚ files →
  NoDup (name <$> files) →
  (∀ f, f ∈ files → unit_comes_back html2text fuel tool f = true) →
  ∃ w',
    text_conversion html2text can_write fuel cpu_count tool files completed w
      = (Ok tt, w')
    ∧ (∀ f e, f ∈ files → name f ≠ DS_STORE →
         apply_tool html2text fuel tool (data f) = Ok (Some e) →
         can_write (name f) = true →
         outdir w' !! name f = Some e)
    ∧ (∀ f, f ∈ files →
         apply_tool html2text fuel tool (data f) = Ok None →
         outdir w' !! name f = outdir w !! name f
         ∧ unit_returns html2text fuel tool f = true)
    ∧ total_files_processed w' =
      Z.of_nat (length (filter (λ f, unit_returns html2text fuel tool f = true)
                          files)).
Proof.
  intros Hcpu Hperm Hnd Hback.
  assert (NoDup (name <$> completed)) as Hnd' by (by rewrite Hperm).
  unfold text_conversion.
  destruct (Z.ltb_spec (cpu_count - 1) 1) as [?|_]; [lia |].
  unfold bind at 1. unfold conversion_progress at 1.
  unfold bind at 1.
  destruct (queue_loop_state files 0 (set_processed 0 w))
    as (num' & queued & ->).
  unfold bind at 1.
  rewrite (for_fold_foldl completed _ (λ _ _, tt)
             (unit_step html2text can_write fuel tool)).
  2:{ intros f [] w1 Hf. apply pool_unit_step, Hback. by rewrite <- Hperm. }
  eexists. split; [reflexivity |].
  set (w1 := set_queued queued (set_processed 0 w)).
  split; [| split].
  - intros f e Hf Hname Hres Hwr.
    rewrite (fold_outdir_lookup _ _ (unit_step_outdir fuel tool))
      by (done || by rewrite Hperm).
    unfold unit_writes. by rewrite bool_decide_eq_false_2, Hres, Hwr.
  - intros f Hf Hres. split.
    + rewrite (fold_outdir_lookup _ _ (unit_step_outdir fuel tool))
        by (done || by rewrite Hperm).
      unfold unit_writes. rewrite Hres. by case_bool_decide.
    + unfold unit_returns. rewrite Hres. apply orb_true_r.
  - rewrite fold_unit_step_processed. simpl. by rewrite Hperm.
Qed.

(** C4 fails on the code: in [export_long] the [len] of the absent
    content of the unreadable ["a.txt"] raises [TypeError]; the run stops
    there and the long, readable ["b.txt"] is neither read nor exported. *)
Theorem export_long_aborts_on_unreadable_file w :
  export_long can_write unreadable_then_long w =
  (Raised TypeError, add_read (str "a.txt") w).
Proof. reflexivity. Qed.

End BatchFacts.

(** ** The batch runs on concrete directories *)

Lemma ds_store_never_read_nor_written_witness :
  ds_store_free w0
  ∧ ds_store_free
      (text_conversion no_html2text always_writable 0 4 (str "3")
         markdown_files markdown_files w0).2
  ∧ ds_store_free (match_list always_writable (Some list_of_eleven) dir_of_one w0).2.
Proof.
  assert (ds_store_free w0) as H0.
  { split; [apply lookup_empty | apply not_elem_of_nil]. }
  split; [exact H0 |].
  destruct (ds_store_never_read_nor_written no_html2text always_writable w0 H0)
    as (Hconv & _ & _ & Hmatch).
  split; [apply Hconv | apply Hmatch].
Defined.

(** C5, as stated, fails: the only file of [headless_page_dir] has no Description
    heading, its result is absent and nothing is written, and yet the
    processed total of the run is 1. *)
Lemma conversion_counts_absent_result :
  apply_tool no_html2text 0 (str "3") (Some (str "## Progress")) = Ok None
  ∧ (let w' := (text_conversion no_html2text always_writable 0 4 (str "3")
                  headless_page_dir headless_page_dir w0).2 in
     outdir w' !! str "quest.md" = None ∧ total_files_processed w' = 1).
Proof. split; [reflexivity | split; vm_compute; reflexivity]. Qed.

Lemma conversion_writes_present_counts_returned_witness :
  ∃ w',
    text_conversion no_html2text always_writable 0 4 (str "3")
      markdown_files (reverse markdown_files) w0 = (Ok tt, w')
    ∧ outdir w' !! str "full.md" = markdown_slice (Some three_sections_doc)
    ∧ outdir w' !! str "quest.md" = None
    ∧ total_files_processed w' = 3.
Proof.
  destruct (conversion_writes_present_counts_returned
              no_html2text always_writable 0 4 (str "3")
              markdown_files (reverse markdown_files) w0)
    as (w' & Hrun & Hpresent & Habsent & Hcount).
  - lia.
  - apply reverse_Permutation.
  - apply (bool_decide_unpack _). vm_compute. exact I.
  - intros f Hf. unfold markdown_files in Hf.
    repeat (apply elem_of_cons in Hf as [->|Hf]); try reflexivity.
    by apply elem_of_nil in Hf.
  - exists w'. split; [exact Hrun |]. split; [| split].
    + apply (Hpresent (File (str "full.md") (Some three_sections_doc)));
        [apply list_elem_of_here | vm_compute; intros H; discriminate H
        | reflexivity | reflexivity].
    + apply (Habsent (File (str "quest.md") (Some (str "## Progress"))));
        [do 2 apply list_elem_of_further; apply list_elem_of_here | reflexivity].
    + rewrite Hcount. reflexivity.
Defined.

(** C7, as stated, fails: ["1.txt"] is not an entry of the list, which
    names ["11.txt"] only, and it is copied all the same. *)
Lemma match_list_copies_unlisted_name :
  (str "1.txt" ∉ spec_parsed_entries list_of_eleven)
  ∧ outdir (match_list always_writable (Some list_of_eleven) dir_of_one w0).2
      !! str "1.txt" = Some (str "x").
Proof.
  split; [| vm_compute; reflexivity].
  apply (bool_decide_unpack _). vm_compute. exact I.
Qed.

Lemma match_list_copies_names_found_in_text_witness :
  ∃ num_file w',
    match_list always_writable (Some list_of_eleven) three_files w0 = (Ok num_file, w')
    ∧ (outdir w' !! str "1.txt" = Some (str "x")
       ↔ ∃ pre post, list_of_eleven = pre ++ str "1.txt" ++ post).
Proof.
  apply (match_list_copies_names_found_in_text always_writable list_of_eleven
           three_files w0 (File (str "1.txt") (Some (str "x"))) (str "x")).
  - apply (bool_decide_unpack _). vm_compute. exact I.
  - apply list_elem_of_here.
  - vm_compute. intros H. discriminate H.
  - reflexivity.
  - reflexivity.
  - apply lookup_empty.
Defined.

Lemma pick_rand_random_sample_witness :
  (∀ w, pick_rand always_writable [5%nat; 7%nat] (str "r") 5 three_files w
        = (Raised ValueError, w))
  ∧ ∃ picked_files,
      Z.of_nat (length picked_files) = 2
      ∧ NoDup (name <$> picked_files)
      ∧ picked_files ⊆ three_files
      ∧ ∀ w, pick_rand always_writable [5%nat; 7%nat] (str "r") 2 three_files w
             = (Raised TypeError,
                (pick_loop always_writable picked_files three_files w).2).
Proof.
  split.
  - apply (proj1 (pick_rand_random_sample always_writable [5%nat; 7%nat] 5
                    three_files)).
    simpl. lia.
  - apply (proj2 (pick_rand_random_sample always_writable [5%nat; 7%nat] 2
                    three_files)).
    + simpl. lia.
    + apply (bool_decide_unpack _). vm_compute. exact I.
Defined.

(** ** Further properties of the tag remover *)

Section MoreHtmlFacts.

Implicit Types s t pre rest content : pystr.

Lemma find_char_first (c : ascii) s (n : nat) :
  find [c] s = Z.of_nat n
  ↔ s !! n = Some c ∧ ∀ m, (m < n)%nat → s !! m ≠ Some c.
Proof.
  rewrite find_first. unfold first_at, next_at. rewrite occurs_at_char. split.
  - intros (_ & Hn & Hmin). split; [done |]. intros m Hm Hc.
    apply (Hmin m); [lia |]. by apply occurs_at_char.
  - intros [Hn Hmin]. split; [lia |]. split; [done |].
    intros m [_ Hm] Hc%occurs_at_char. by apply (Hmin m).
Qed.

Lemma slice_suffix s (a : nat) : slice s (Z.of_nat a) (len s) = drop a s.
Proof.
  unfold len. rewrite slice_of_nat by done. apply take_ge.
  rewrite length_drop. lia.
Qed.

(** One turn of the loop on a text whose first ['>'] comes before its
    first ['<']: the ['>'] stays where it is and the ['<'] moves right. *)
Lemma stray_close_step t (k l : nat) :
  find (str "<") t = Z.of_nat k → find (str ">") t = Z.of_nat l → (l < k)%nat →
  find (str "<") (slice t 0 (Z.of_nat k) ++ slice t (Z.of_nat l + 1) (len t))
    = Z.of_nat (k + (k - l - 1))
  ∧ find (str ">") (slice t 0 (Z.of_nat k) ++ slice t (Z.of_nat l + 1) (len t))
    = Z.of_nat l.
Proof.
  intros [Hk Hkmin]%find_char_first [Hl Hlmin]%find_char_first Hlk.
  assert (k < length t)%nat as Hklen by (by eapply lookup_lt_Some).
  rewrite slice_prefix.
  replace (Z.of_nat l + 1) with (Z.of_nat (S l)) by lia. rewrite slice_suffix.
  assert (length (take k t) = k) as Htake by (rewrite length_take; lia).
  split; apply find_char_first; split.
  - rewrite lookup_app_r by lia. rewrite Htake, lookup_drop.
    by replace (S l + (k + (k - l - 1) - k))%nat with k by lia.
  - intros m Hm. destruct (decide (m < k)%nat).
    + rewrite lookup_app_l by lia. rewrite lookup_take_lt by lia. by apply Hkmin.
    + rewrite lookup_app_r by lia. rewrite Htake, lookup_drop. apply Hkmin. lia.
  - rewrite lookup_app_l by lia. by rewrite lookup_take_lt by lia.
  - intros m Hm. rewrite lookup_app_l by lia. rewrite lookup_take_lt by lia.
    by apply Hlmin.
Qed.

Lemma strip_loop_stray_close fuel t :
  0 < find (str "<") t → find (str ">") t < find (str "<") t →
  strip_loop fuel t = OutOfFuel.
Proof.
  revert t. induction fuel as [|fuel IH]; intros t Hlt Hgt;
    (rewrite strip_loop_enter by done); [done |].
  destruct (find_cases (str ">") t) as [El|(l & El & _)].
  - destruct (unterminated_step t Hlt El) as [H1 H2]. apply IH; [done | lia].
  - destruct (find_cases (str "<") t) as [Ek|(k & Ek & _)]; [lia |].
    rewrite Ek, El in *.
    destruct (stray_close_step t k l Ek El) as [H1 H2]; [lia |].
    apply IH; rewrite ?H1, ?H2; lia.
Qed.

(** [html_slice] on a page whose Description runs up to a later ["<h2"]
    is the loop run on the text in between. *)
Lemma html_slice_section fuel pre t rest :
  first_at DESCRIPTION_H2 (pre ++ DESCRIPTION_H2 ++ t ++ str "<h2" ++ rest)
    (length pre) →
  first_at (str "<h2") (t ++ str "<h2" ++ rest) (length t) →
  html_slice fuel (Some (pre ++ DESCRIPTION_H2 ++ t ++ str "<h2" ++ rest)) =
  match strip_loop fuel t with
  | OutOfFuel => OutOfFuel
  | Done r => Done (Some r)
  end.
Proof.
  intros Hi%find_first Hj%find_first. unfold html_slice. rewrite Hi.
  destruct (Z.eqb_spec (Z.of_nat (length pre)) (-1)) as [?|_]; [lia |].
  change 43 with (Z.of_nat (length DESCRIPTION_H2)).
  rewrite <- Nat2Z.inj_add, <- length_app, slice_suffix.
  rewrite (app_assoc pre), drop_app_length.
  by rewrite Hj, slice_prefix, take_app_length.
Qed.

(** [html_slice] on a page with no ["<h2"] after the Description heading
    is the loop run on the rest of the page without its last character. *)
Lemma html_slice_last_section fuel pre t :
  first_at DESCRIPTION_H2 (pre ++ DESCRIPTION_H2 ++ t) (length pre) →
  none_from (str "<h2") t O →
  html_slice fuel (Some (pre ++ DESCRIPTION_H2 ++ t)) =
  match strip_loop fuel (take (length t - 1) t) with
  | OutOfFuel => OutOfFuel
  | Done r => Done (Some r)
  end.
Proof.
  intros Hi%find_first Hj%find_none. unfold html_slice. rewrite Hi.
  destruct (Z.eqb_spec (Z.of_nat (length pre)) (-1)) as [?|_]; [lia |].
  change 43 with (Z.of_nat (length DESCRIPTION_H2)).
  rewrite <- Nat2Z.inj_add, <- length_app, slice_suffix.
  rewrite (app_assoc pre), drop_app_length, Hj.
  change 0 with (Z.of_nat O). rewrite slice_to_minus_one, drop_0.
  by rewrite Nat.sub_0_r.
Qed.

End MoreHtmlFacts.

(** X1: [html_slice] gives [None] exactly when the Description heading
    does not occur in the page, whatever the number of turns allowed;
    on [None] it gives [None] too. *)
Theorem html_slice_absent_iff_no_heading fuel :
  html_slice fuel None = Done None
  ∧ ∀ content, html_slice fuel (Some content) = Done None
               ↔ none_from DESCRIPTION_H2 content O.
Proof.
  split; [done |]. intros content. rewrite <- find_none. unfold html_slice.
  destruct (Z.eqb_spec (find DESCRIPTION_H2 content) (-1)) as [E|E].
  - done.
  - split; [| done]. by destruct (strip_loop _ _).
Qed.

(** X3: when the text of the Description, taken up to the next ["<h2"],
    has a ['<'] past its first character and its first ['>'], if any,
    comes before that ['<'], the loop of [html_slice] never ends: nothing
    is returned, whatever the number of turns allowed. *)
Theorem html_slice_loops_on_stray_close fuel pre t rest :
  first_at DESCRIPTION_H2 (pre ++ DESCRIPTION_H2 ++ t ++ str "<h2" ++ rest)
    (length pre) →
  first_at (str "<h2") (t ++ str "<h2" ++ rest) (length t) →
  0 < find (str "<") t →
  find (str ">") t < find (str "<") t →
  html_slice fuel (Some (pre ++ DESCRIPTION_H2 ++ t ++ str "<h2" ++ rest))
  = OutOfFuel.
Proof.
  intros Hi Hj Hlt Hgt. rewrite html_slice_section by done.
  by rewrite strip_loop_stray_close.
Qed.

Lemma html_slice_loops_on_stray_close_witness :
  html_slice 1000
    (Some (DESCRIPTION_H2 ++ str "Level > 10. <b>Elite</b>"
           ++ str "<h2>Progress</h2>"))
  = OutOfFuel.
Proof.
  apply (html_slice_loops_on_stray_close 1000 [] (str "Level > 10. <b>Elite</b>")
           (str ">Progress</h2>")).
  - apply find_first. reflexivity.
  - apply find_first. reflexivity.
  - reflexivity.
  - reflexivity.
Defined.

(** X4: when no ["<h2"] follows the Description heading and the rest of
    the page holds no ['<'], [html_slice] returns that rest without its
    last character. *)
Theorem html_slice_last_section_drops_last_char fuel pre t :
  first_at DESCRIPTION_H2 (pre ++ DESCRIPTION_H2 ++ t) (length pre) →
  none_from (str "<h2") t O →
  "<"%char ∉ t →
  html_slice fuel (Some (pre ++ DESCRIPTION_H2 ++ t))
  = Done (Some (take (length t - 1) t)).
Proof.
  intros Hi Hj Hlt. rewrite html_slice_last_section by done.
  rewrite strip_loop_not_entered; [done |].
  assert (find (str "<") (take (length t - 1) t) = -1) as ->; [| lia].
  apply (find_char_none "<"%char). intros (i & Hin & _)%elem_of_take.
  apply Hlt. by eapply list_elem_of_lookup_2.
Qed.

Lemma html_slice_last_section_drops_last_char_witness :
  html_slice 0 (Some (DESCRIPTION_H2 ++ str "Slay ten boars."))
  = Done (Some (str "Slay ten boars")).
Proof.
  apply (html_slice_last_section_drops_last_char 0 [] (str "Slay ten boars.")).
  - apply find_first. reflexivity.
  - apply find_none. reflexivity.
  - apply (bool_decide_unpack _). vm_compute. exact I.
Defined.

(** ** Further properties of the markdown slicer *)

Section MoreMarkdownFacts.

Implicit Types sub hd old new s c pre post content : pystr.

Lemma section_text_None hd c : section_text hd c = None ↔ none_from hd c O.
Proof.
  rewrite <- find_none. unfold section_text.
  by destruct (Z.eqb_spec (find hd c) (-1)).
Qed.

Lemma replace_absent old new s : none_from old s O → replace old new s = s.
Proof.
  unfold replace. induction s as [|c s IH]; intros H; simpl; [done |].
  destruct (startswith old (c :: s)) eqn:E.
  - exfalso. apply startswith_prefix in E. apply (H O); [lia |].
    split; [simpl; lia | done].
  - f_equal. apply IH. intros m Hm Hocc. apply (H (S m)); [lia |].
    by apply occurs_at_cons.
Qed.

Lemma replace_skip_app old new (x y : pystr) :
  replace_skip old new (x ++ y) (length x) = replace_skip old new y O.
Proof. induction x as [|a x IH]; simpl; [by destruct y | done]. Qed.

Lemma replace_first old new pre post :
  old ≠ [] →
  first_at old (pre ++ old ++ post) (length pre) →
  replace old new (pre ++ old ++ post) = pre ++ new ++ replace old new post.
Proof.
  intros Hne. unfold replace.
  induction pre as [|c pre IH]; intros (_ & Hocc & Hmin).
  - destruct old as [|a old]; [done |]. cbn [app replace_skip startswith].
    rewrite bool_decide_eq_true_2 by done.
    assert (startswith old (old ++ post) = true) as ->.
    { apply startswith_prefix. by exists post. }
    cbn [andb length].
    replace (S (length old) - 1)%nat with (length old) by lia.
    f_equal. apply replace_skip_app.
  - cbn [app replace_skip].
    destruct (startswith old (c :: pre ++ old ++ post)) eqn:E.
    + exfalso. apply startswith_prefix in E. apply (Hmin O); [simpl; lia |].
      split; [simpl; lia | done].
    + cbn [app]. f_equal. apply IH. split; [lia |]. split.
      * by apply (occurs_at_cons old c).
      * intros m Hm Ho. apply (Hmin (S m)); [simpl; lia |].
        by apply occurs_at_cons.
Qed.



End MoreMarkdownFacts.

(** X5: [markdown_slice] gives [None] exactly when ["## Description"]
    does not occur in the document; on [None] it gives [None] too. *)
Theorem markdown_slice_absent_iff_no_description :
  markdown_slice None = None
  ∧ ∀ content, markdown_slice (Some content) = None
               ↔ none_from (str "## Description") content O.
Proof.
  split; [done |]. intros content.
  rewrite markdown_slice_sections, <- section_text_None.
  by destruct (section_text (str "## Description") content).
Qed.

(** X6: a Progress or Completion heading that does not occur (after
    normalisation) is passed over: nothing is appended for it and the
    other sections are returned as they are. *)
Theorem markdown_slice_skips_missing_sections content d :
  delimited (str "## Description") content d →
  (∀ q, none_from (str "## Progress") (normalise_progress content) O →
        delimited (str "## Completion") (normalise_completion content) q →
        markdown_slice (Some content) = Some (d ++ q))
  ∧ (∀ p, delimited (str "## Progress") (normalise_progress content) p →
          none_from (str "## Completion") (normalise_completion content) O →
          markdown_slice (Some content) = Some (d ++ p))
  ∧ (none_from (str "## Progress") (normalise_progress content) O →
     none_from (str "## Completion") (normalise_completion content) O →
     markdown_slice (Some content) = Some d).
Proof.
  intros Hd.
  assert (∀ t : string, t ≠ EmptyString → str t ≠ []) as Hne
    by (by intros [|? ?]).
  rewrite markdown_slice_sections.
  rewrite (section_text_delimited _ content d) by (done || by apply Hne).
  split; [| split].
  - intros q Hp%section_text_None Hq. rewrite Hp.
    by rewrite (section_text_delimited _ _ q) by (done || by apply Hne).
  - intros p Hp Hq%section_text_None. rewrite Hq.
    rewrite (section_text_delimited _ _ p) by (done || by apply Hne).
    simpl. by rewrite app_nil_r.
  - intros Hp%section_text_None Hq%section_text_None. rewrite Hp, Hq.
    simpl. by rewrite app_nil_r.
Qed.

Lemma markdown_slice_skips_missing_sections_witness :
  markdown_slice (Some no_progress_doc)
  = Some (([nl] ++ str "Foo" ++ [nl]) ++ ([nl] ++ str "Baz" ++ [nl])).
Proof.
  destruct (markdown_slice_skips_missing_sections no_progress_doc
              ([nl] ++ str "Foo" ++ [nl])) as (Hskip & _ & _).
  - exists [], (drop 21 no_progress_doc). split; [reflexivity |]. split.
    + simpl. intros m Hm. lia.
    + intros m Hm. apply (no_occurrence_check _ _ 1 18); [reflexivity |].
      simpl in Hm. lia.
  - apply Hskip.
    + apply find_none. reflexivity.
    + exists (take 19 no_progress_doc), (drop 39 no_progress_doc).
      split; [reflexivity |]. split.
      * intros m Hm. apply (no_occurrence_check _ _ 0 19); [reflexivity |].
        simpl in Hm. lia.
      * intros m Hm. apply (no_occurrence_check _ _ 20 17); [reflexivity |].
        simpl in Hm. lia.
Defined.

(** X7: the two normalisations of [markdown_slice] leave a document
    without linked headings as it is. *)
Theorem normalise_keeps_plain_document content :
  none_from LINKED_PROGRESS content O →
  none_from LINKED_COMPLETION content O →
  normalise_progress content = content
  ∧ normalise_completion content = content.
Proof.
  intros Hp Hc. unfold normalise_completion, normalise_progress.
  change (str "## [Progress](javascript:)") with LINKED_PROGRESS.
  change (str "## [Completion](javascript:)") with LINKED_COMPLETION.
  by rewrite !replace_absent.
Qed.

Lemma normalise_keeps_plain_document_witness :
  normalise_progress three_sections_doc = three_sections_doc
  ∧ normalise_completion three_sections_doc = three_sections_doc.
Proof.
  apply normalise_keeps_plain_document; apply find_none; reflexivity.
Defined.

(** X8: the first linked Progress heading of a document is rewritten to
    the plain ["## Progress"], the text before it is kept, and the text
    after it is normalised in turn. *)
Theorem normalise_progress_rewrites_first_linked pre post :
  first_at LINKED_PROGRESS (pre ++ LINKED_PROGRESS ++ post) (length pre) →
  normalise_progress (pre ++ LINKED_PROGRESS ++ post)
  = pre ++ str "## Progress" ++ normalise_progress post.
Proof.
  intros H. unfold normalise_progress.
  change (str "## [Progress](javascript:)") with LINKED_PROGRESS.
  apply replace_first; [| done]. intros E. discriminate E.
Qed.

Lemma normalise_progress_rewrites_first_linked_witness :
  normalise_progress linked_progress_doc
  = (str "## Description" ++ [nl] ++ str "Foo" ++ [nl])
    ++ str "## Progress"
    ++ normalise_progress ([nl] ++ str "Bar" ++ [nl] ++ str "## Other").
Proof.
  apply (normalise_progress_rewrites_first_linked
           (str "## Description" ++ [nl] ++ str "Foo" ++ [nl])
           ([nl] ++ str "Bar" ++ [nl] ++ str "## Other")).
  apply find_first. reflexivity.
Defined.



(** ** Further properties of the batch runs *)

Section MoreBatchFacts.

Variable html2text : option pystr → converted.
Variable can_write : pystr → bool.

Lemma for_fold_app {A S} (xs ys : list A) (acc : S) (body : A → S → M S) w :
  for_fold (xs ++ ys) acc body w =
  bind (for_fold xs acc body) (λ a, for_fold ys a body) w.
Proof.
  revert acc w. induction xs as [|x xs IH]; intros acc w; simpl; [done |].
  unfold bind. destruct (body x acc w) as [[a|e|] w1]; [| done | done].
  by rewrite IH.
Qed.

(** *** The length filter *)

Lemma export_long_fold files w :
  (∀ f, f ∈ files → name f ≠ DS_STORE → is_Some (data f)) →
  export_long can_write files w =
  (Ok (foldl long_count 0 files), foldl (long_step can_write) w files).
Proof.
  intros Hread. apply for_fold_foldl. intros f num_file w' Hf.
  unfold long_step, long_writes, long_count.
  case_bool_decide as Hname; simpl; [done |].
  destruct (Hread f Hf Hname) as [e He].
  unfold bind, import_text; simpl. rewrite !He. simpl.
  destruct (500 <? len e); simpl; [| done].
  unfold export_text. by destruct (can_write (name f)).
Qed.

Lemma long_step_outdir w f :
  outdir (long_step can_write w f) =
  match long_writes can_write f with
  | Some e => <[name f := e]> (outdir w)
  | None => outdir w
  end.
Proof.
  unfold long_step.
  by destruct (long_writes can_write f), (bool_decide (name f = DS_STORE)).
Qed.

(** X10: over a directory whose files can all be read, [export_long]
    runs to its end and a writable file other than [.DS_Store] is
    exported exactly when its content is longer than 500 characters;
    a content of exactly 500 characters is not exported. *)
Theorem export_long_exports_longer_than_500 files w f e :
  (∀ g, g ∈ files → name g ≠ DS_STORE → is_Some (data g)) →
  NoDup (name <$> files) →
  f ∈ files →
  name f ≠ DS_STORE →
  data f = Some e →
  can_write (name f) = true →
  outdir w !! name f = None →
  ∃ num_file w',
    export_long can_write files w = (Ok num_file, w')
    ∧ (outdir w' !! name f = Some e ↔ 500 < len e).
Proof.
  intros Hread Hnd Hin Hname Hdata Hwr Hnew. eexists _, _.
  split; [by apply export_long_fold |].
  rewrite (fold_outdir_lookup _ _ long_step_outdir) by done.
  unfold long_writes. rewrite bool_decide_eq_false_2, Hdata, Hwr, Hnew by done.
  destruct (Z.ltb_spec 500 (len e)); simpl; naive_solver lia.
Qed.

(** X11: the first unreadable file of the directory (other than
    [.DS_Store]) ends [export_long] with [TypeError]: the files before it
    have been handled, it has been read, and no file after it is touched. *)
Theorem export_long_stops_at_first_unreadable before f after w :
  (∀ g, g ∈ before → name g ≠ DS_STORE → is_Some (data g)) →
  name f ≠ DS_STORE →
  data f = None →
  export_long can_write (before ++ f :: after) w =
  (Raised TypeError, add_read (name f) (export_long can_write before w).2).
Proof.
  intros Hread Hname Hdata. unfold export_long at 1. rewrite for_fold_app.
  unfold bind at 1. fold (export_long can_write before).
  rewrite export_long_fold by done. simpl.
  unfold bind at 1. rewrite bool_decide_eq_false_2 by done. simpl.
  unfold bind, import_text. by rewrite Hdata.
Qed.

End MoreBatchFacts.

Lemma export_long_exports_longer_than_500_witness :
  (∃ num_file w',
     export_long always_writable threshold_files w0 = (Ok num_file, w')
     ∧ (outdir w' !! str "short.txt" = Some (repeat "x"%char 500)
        ↔ 500 < len (repeat "x"%char 500)))
  ∧ (∃ num_file w',
       export_long always_writable threshold_files w0 = (Ok num_file, w')
       ∧ (outdir w' !! str "long.txt" = Some (repeat "x"%char 501)
          ↔ 500 < len (repeat "x"%char 501))).
Proof.
  assert (∀ g, g ∈ threshold_files → name g ≠ DS_STORE → is_Some (data g))
    as Hread.
  { intros g Hg _. unfold threshold_files in Hg.
    repeat (apply elem_of_cons in Hg as [->|Hg]); [by eexists | by eexists |].
    by apply elem_of_nil in Hg. }
  assert (NoDup (name <$> threshold_files)) as Hnd.
  { apply (bool_decide_unpack _). vm_compute. exact I. }
  split.
  - apply (export_long_exports_longer_than_500 always_writable threshold_files
             w0 (File (str "short.txt") (Some (repeat "x"%char 500))));
      [exact Hread | exact Hnd | apply list_elem_of_here
      | intros H; vm_compute in H; discriminate H
      | reflexivity | reflexivity | apply lookup_empty].
  - apply (export_long_exports_longer_than_500 always_writable threshold_files
             w0 (File (str "long.txt") (Some (repeat "x"%char 501))));
      [exact Hread | exact Hnd
      | apply list_elem_of_further, list_elem_of_here
      | intros H; vm_compute in H; discriminate H
      | reflexivity | reflexivity | apply lookup_empty].
Defined.

Lemma export_long_stops_at_first_unreadable_witness :
  export_long always_writable
    (threshold_files ++ File (str "a.txt") None :: three_files) w0 =
  (Raised TypeError,
   add_read (str "a.txt") (export_long always_writable threshold_files w0).2).
Proof.
  apply (export_long_stops_at_first_unreadable always_writable threshold_files
           (File (str "a.txt") None) three_files w0).
  - intros g Hg _. unfold threshold_files in Hg.
    repeat (apply elem_of_cons in Hg as [->|Hg]); [by eexists | by eexists |].
    by apply elem_of_nil in Hg.
  - intros H. vm_compute in H. discriminate H.
  - reflexivity.
Defined.

(** ** Further properties of the selections *)

Section MoreSelectionFacts.

Variable can_write : pystr → bool.

Lemma stride_go_lookup {A} (n : nat) (l : list A) :
  (0 < n)%nat →
  ∀ skip k, stride_go n skip l !! k = l !! (skip + k * n)%nat.
Proof.
  intros Hn. induction l as [|x l IH]; intros skip k; simpl; [done |].
  destruct skip as [|skip].
  - destruct k as [|k]; simpl; [done |]. rewrite IH.
    replace (n + k * n)%nat with (S (n - 1 + k * n)) by lia. done.
  - rewrite IH. done.
Qed.

Lemma pick_rand_after_selection draws mode n files picked_files w :
  (if bool_decide (mode = str "r")
   then bind (random_sample draws files n) (λ p, ret (Some p))
   else if bool_decide (mode = str "s")
        then bind (stride_slice files n) (λ p, ret (Some p))
        else ret None) w = (Ok (Some picked_files), w) →
  pick_rand can_write draws mode n files w =
  (Raised TypeError, (pick_loop can_write picked_files files w).2).
Proof.
  intros Hsel. unfold pick_rand. unfold bind at 1. rewrite Hsel.
  unfold bind. by rewrite pick_loop_fold.
Qed.

(** X12: in sequential mode a step of 0 raises [ValueError] before any
    file is handled; a positive step [n] picks the entries at positions
    0, n, 2n, ... of the listing; a negative step picks the first entry
    alone.  The loop then copies by membership in that list. *)
Theorem pick_rand_sequential draws n files :
  (∀ w, pick_rand can_write draws (str "s") 0 files w = (Raised ValueError, w))
  ∧ (0 < n →
     ∃ picked_files,
       (∀ k, picked_files !! k = files !! (k * Z.to_nat n)%nat)
       ∧ ∀ w, pick_rand can_write draws (str "s") n files w =
              (Raised TypeError,
               (pick_loop can_write picked_files files w).2))
  ∧ (n < 0 →
     ∀ w, pick_rand can_write draws (str "s") n files w =
          (Raised TypeError,
           (pick_loop can_write (take 1 files) files w).2)).
Proof.
  split; [done |]. split.
  - intros Hn. exists (stride_go (Z.to_nat n) O files). split.
    + intros k. rewrite stride_go_lookup by lia. done.
    + intros w. apply pick_rand_after_selection.
      rewrite bool_decide_eq_false_2 by (intros H; discriminate H).
      rewrite bool_decide_eq_true_2 by done.
      unfold stride_slice, bind.
      destruct (Z.eqb_spec n 0) as [?|_]; [lia |].
      by destruct (Z.ltb_spec n 0) as [?|_]; [lia |].
  - intros Hn w. apply pick_rand_after_selection.
    rewrite bool_decide_eq_false_2 by (intros H; discriminate H).
    rewrite bool_decide_eq_true_2 by done.
    unfold stride_slice, bind.
    destruct (Z.eqb_spec n 0) as [?|_]; [lia |].
    by destruct (Z.ltb_spec n 0) as [_|?]; [| lia].
Qed.

(** X13: [pick_rand] never ends normally once a selection was asked for:
    in random and in sequential mode it ends with an exception, and a
    [ValueError] leaves the state as it was; with any other answer it
    returns at once and does nothing. *)
Theorem pick_rand_ends_with_exception draws mode n files w :
  (mode ≠ str "r" → mode ≠ str "s" →
   pick_rand can_write draws mode n files w = (Ok tt, w))
  ∧ (mode = str "r" ∨ mode = str "s" →
     pick_rand can_write draws mode n files w = (Raised ValueError, w)
     ∨ ∃ w', pick_rand can_write draws mode n files w = (Raised TypeError, w')).
Proof.
  split.
  - intros Hr Hs. unfold pick_rand, bind.
    by rewrite !bool_decide_eq_false_2 by done.
  - intros [->| ->].
    + unfold pick_rand at 1 2, random_sample, bind.
      rewrite bool_decide_eq_true_2 by done.
      destruct ((n <? 0) || (Z.of_nat (length files) <? n)); [by left | right].
      simpl. rewrite pick_loop_fold. by eexists.
    + unfold pick_rand at 1 2, stride_slice, bind.
      rewrite bool_decide_eq_false_2 by (intros H; discriminate H).
      rewrite bool_decide_eq_true_2 by done.
      destruct (n =? 0); [by left | right].
      destruct (n <? 0); simpl; rewrite pick_loop_fold; by eexists.
Qed.

(** X14: the loop of [pick_rand] copies a readable, writable file other
    than [.DS_Store] exactly when its name is the name of a picked entry. *)
Theorem pick_loop_copies_picked_names picked_files files w f e :
  NoDup (name <$> files) →
  f ∈ files →
  name f ≠ DS_STORE →
  data f = Some e →
  can_write (name f) = true →
  outdir w !! name f = None →
  ∃ num_file w',
    pick_loop can_write picked_files files w = (Ok num_file, w')
    ∧ (outdir w' !! name f = Some e ↔ name f ∈ name <$> picked_files).
Proof.
  intros Hnd Hin Hname Hdata Hwr Hnew. eexists _, _.
  split; [apply pick_loop_fold |].
  rewrite (fold_outdir_lookup _ _ (copy_step_outdir can_write _)) by done.
  unfold copy_writes.
  rewrite Hdata, Hwr, Hnew, (bool_decide_eq_false_2 (name f = DS_STORE)) by done.
  simpl. case_bool_decide; naive_solver.
Qed.

Lemma foldl_copy_count (sel : file → bool) files acc :
  foldl (copy_count sel) acc files =
  acc + Z.of_nat (length (filter
          (λ f, name f ≠ DS_STORE ∧ sel f = true ∧ is_Some (data f)) files)).
Proof.
  revert acc. induction files as [|f files IH]; intros acc; simpl; [lia |].
  rewrite IH, filter_cons. unfold copy_count.
  case_bool_decide as Hname; simpl.
  - rewrite decide_False by (by intros [Hne _]). lia.
  - destruct (sel f); simpl.
    + destruct (data f) as [e|].
      * rewrite decide_True by (split_and!; by eauto). simpl. lia.
      * rewrite decide_False by (intros (_ & _ & [? ?]); done). lia.
    + rewrite decide_False by (by intros (_ & Hsel & _)). lia.
Qed.

Lemma fold_outdir_unwritten (step : world → file → world)
    (wr : file → option pystr) :
  (∀ w f, outdir (step w f) =
          match wr f with
          | Some e => <[name f := e]> (outdir w)
          | None => outdir w
          end) →
  (∀ f, wr f = None) →
  ∀ files w, outdir (foldl step w files) = outdir w.
Proof.
  intros Hstep Hwr. induction files as [|f files IH]; intros w; simpl; [done |].
  by rewrite IH, Hstep, Hwr.
Qed.

(** X15: the number [match_list] reports is the number of files other
    than [.DS_Store] whose name is found in the list text and that could
    be read; it does not depend on whether the copies could be written,
    and when none can be the output directory is left as it was. *)
Theorem match_list_counts_readable_matches quest_list files w :
  (match_list can_write (Some quest_list) files w).1 =
    Ok (Z.of_nat (length (filter
          (λ f, name f ≠ DS_STORE ∧ contains (name f) quest_list = true
                ∧ is_Some (data f)) files)))
  ∧ ((∀ filename, can_write filename = false) →
     outdir (match_list can_write (Some quest_list) files w).2 = outdir w).
Proof.
  rewrite match_list_fold. simpl. split; [by rewrite foldl_copy_count |].
  intros Hcw.
  apply (fold_outdir_unwritten _ _ (copy_step_outdir can_write _)).
  intros f. unfold copy_writes. rewrite Hcw.
  by destruct (negb _ && _), (data f).
Qed.

(** X16: when the list file could not be read, [match_list] raises
    [TypeError] at the first entry other than [.DS_Store], before any
    file is read or written; over a directory without such an entry it
    ends and reports 0. *)
Theorem match_list_without_list files w :
  ((∃ f, f ∈ files ∧ name f ≠ DS_STORE) →
   match_list can_write None files w = (Raised TypeError, w))
  ∧ ((∀ f, f ∈ files → name f = DS_STORE) →
     match_list can_write None files w = (Ok 0, w)).
Proof.
  unfold match_list. generalize 0 as acc.
  induction files as [|f files IH]; intros acc.
  - split; [intros (f & Hf & _); by apply elem_of_nil in Hf | done].
  - cbn [for_fold]. unfold bind at 1 3. case_bool_decide as Hname; simpl.
    + destruct (IH acc) as [IH1 IH2]. split.
      * intros (g & [->|Hg]%elem_of_cons & Hne); [done |]. apply IH1. eauto.
      * intros Hall. apply IH2. intros g Hg. apply Hall. by right.
    + split; [done |]. intros Hall. exfalso. apply Hname, Hall. by left.
Qed.

End MoreSelectionFacts.

Lemma pick_rand_sequential_witness :
  (∃ picked_files,
     (∀ k, picked_files !! k = three_files !! (k * Z.to_nat 2)%nat)
     ∧ ∀ w, pick_rand always_writable [] (str "s") 2 three_files w =
            (Raised TypeError,
             (pick_loop always_writable picked_files three_files w).2))
  ∧ (∀ w, pick_rand always_writable [] (str "s") (-1) three_files w =
          (Raised TypeError,
           (pick_loop always_writable (take 1 three_files) three_files w).2)).
Proof.
  destruct (pick_rand_sequential always_writable [] 2 three_files)
    as (_ & Hpos & _).
  destruct (pick_rand_sequential always_writable [] (-1) three_files)
    as (_ & _ & Hneg).
  split; [apply Hpos | apply Hneg]; lia.
Defined.

Lemma pick_rand_ends_with_exception_witness :
  pick_rand always_writable [] (str "x") 2 three_files w0 = (Ok tt, w0)
  ∧ (pick_rand always_writable [] (str "s") 2 three_files w0
     = (Raised ValueError, w0)
     ∨ ∃ w', pick_rand always_writable [] (str "s") 2 three_files w0
             = (Raised TypeError, w')).
Proof.
  split.
  - apply (proj1 (pick_rand_ends_with_exception always_writable [] (str "x") 2
                    three_files w0));
      intros H; discriminate H.
  - apply (proj2 (pick_rand_ends_with_exception always_writable [] (str "s") 2
                    three_files w0)).
    by right.
Defined.

Lemma pick_loop_copies_picked_names_witness :
  ∃ num_file w',
    pick_loop always_writable (take 1 three_files) three_files w0
      = (Ok num_file, w')
    ∧ (outdir w' !! str "2.txt" = Some (str "y")
       ↔ str "2.txt" ∈ name <$> take 1 three_files).
Proof.
  apply (pick_loop_copies_picked_names always_writable (take 1 three_files)
           three_files w0 (File (str "2.txt") (Some (str "y"))) (str "y")).
  - apply (bool_decide_unpack _). vm_compute. exact I.
  - apply list_elem_of_further, list_elem_of_here.
  - intros H. vm_compute in H. discriminate H.
  - reflexivity.
  - reflexivity.
  - apply lookup_empty.
Defined.

Lemma match_list_without_list_witness :
  match_list always_writable None three_files w0 = (Raised TypeError, w0)
  ∧ match_list always_writable None [File DS_STORE None] w0 = (Ok 0, w0).
Proof.
  split.
  - apply (proj1 (match_list_without_list always_writable three_files w0)).
    exists (File (str "1.txt") (Some (str "x"))).
    split; [apply list_elem_of_here | intros H; vm_compute in H; discriminate H].
  - apply (proj2 (match_list_without_list always_writable
                    [File DS_STORE None] w0)).
    intros f Hf. apply list_elem_of_singleton in Hf. by subst.
Defined.

Lemma match_list_counts_readable_matches_witness :
  (match_list never_writable (Some list_of_eleven) three_files w0).1 = Ok 1
  ∧ outdir (match_list never_writable (Some list_of_eleven) three_files w0).2
    = outdir w0.
Proof.
  destruct (match_list_counts_readable_matches never_writable list_of_eleven
              three_files w0) as [Hcount Hout].
  split; [rewrite Hcount; reflexivity | by apply Hout].
Defined.

(** ** Further properties of the conversion pool *)

Section MorePoolFacts.

Variable html2text : option pystr → converted.
Variable can_write : pystr → bool.

Lemma queue_loop_exact {A} (files : list A) num w :
  for_fold files num (λ _ num, λ w, (Ok (num + 1), set_queued (num + 1) w)) w =
  ( Ok (num + Z.of_nat (length files)),
    match files with
    | [] => w
    | _ :: _ => set_queued (num + Z.of_nat (length files)) w
    end ).
Proof.
  revert num w. induction files as [|f files IH]; intros num w.
  - simpl. by rewrite Z.add_0_r.
  - cbn [for_fold]. unfold bind. rewrite IH. cbn [length].
    replace (num + 1 + Z.of_nat (length files))
      with (num + Z.of_nat (S (length files))) by lia.
    by destruct files.
Qed.

(** A run whose units all come back, as a fold over the completions. *)
Lemma text_conversion_run fuel cpu_count tool files completed w :
  1 ≤ cpu_count - 1 →
  (∀ f, f ∈ completed → unit_comes_back html2text fuel tool f = true) →
  text_conversion html2text can_write fuel cpu_count tool files completed w =
  ( Ok tt,
    foldl (unit_step html2text can_write fuel tool)
      (match files with
       | [] => set_processed 0 w
       | _ :: _ => set_queued (Z.of_nat (length files)) (set_processed 0 w)
       end)
      completed ).
Proof.
  intros Hcpu Hback. unfold text_conversion.
  destruct (Z.ltb_spec (cpu_count - 1) 1) as [?|_]; [lia |].
  unfold bind at 1. unfold conversion_progress at 1.
  unfold bind at 1. rewrite queue_loop_exact. unfold bind at 1.
  rewrite (for_fold_foldl completed _ (λ _ _, tt)
             (unit_step html2text can_write fuel tool)).
  - by destruct files.
  - intros f [] w1 Hf. by apply pool_unit_step, Hback.
Qed.

Lemma fold_unit_step_queued fuel tool files w :
  total_files_queued
    (foldl (unit_step html2text can_write fuel tool) w files)
  = total_files_queued w.
Proof.
  revert w. induction files as [|f files IH]; intros w; simpl; [done |].
  rewrite IH. unfold unit_step.
  by destruct (unit_writes html2text can_write fuel tool f),
    (unit_returns html2text fuel tool f),
    (bool_decide (name f = DS_STORE)).
Qed.

(** X17: the order in which the units of a conversion run finish does not
    matter: two runs over the same listing whose units all come back end
    with the same output directory and the same two counters. *)
Theorem text_conversion_order_irrelevant
    fuel cpu_count tool files completed1 completed2 w :
  1 ≤ cpu_count - 1 →
  completed1 ≡ₚ files →
  completed2 ≡ₚ files →
  NoDup (name <$> files) →
  (∀ f, f ∈ files → unit_comes_back html2text fuel tool f = true) →
  ∃ w1 w2,
    text_conversion html2text can_write fuel cpu_count tool files completed1 w
      = (Ok tt, w1)
    ∧ text_conversion html2text can_write fuel cpu_count tool files completed2 w
      = (Ok tt, w2)
    ∧ outdir w1 = outdir w2
    ∧ total_files_processed w1 = total_files_processed w2
    ∧ total_files_queued w1 = total_files_queued w2.
Proof.
  intros Hcpu Hp1 Hp2 Hnd Hback. eexists _, _.
  split; [apply text_conversion_run; [done |] |].
  { intros f Hf. apply Hback. by rewrite <- Hp1. }
  split; [apply text_conversion_run; [done |] |].
  { intros f Hf. apply Hback. by rewrite <- Hp2. }
  split; [| split].
  - apply map_eq. intros key.
    destruct (decide (key ∈ name <$> files)) as [Hin|Hout].
    + apply list_elem_of_fmap in Hin as (f & -> & Hf).
      rewrite !(fold_outdir_lookup _ _ (unit_step_outdir html2text can_write
                                          fuel tool));
        by rewrite ?Hp1, ?Hp2.
    + rewrite !(fold_outdir_other _ _ (unit_step_outdir html2text can_write
                                         fuel tool));
        by rewrite ?Hp1, ?Hp2.
  - rewrite !fold_unit_step_processed. by rewrite Hp1, Hp2.
  - by rewrite !fold_unit_step_queued.
Qed.

(** X18: after a conversion run whose units all come back, the queued
    counter is the number of files of a non-empty listing, and is left
    as it was by an empty one; the processed counter starts from 0 and
    never exceeds the number of files. *)
Theorem text_conversion_counters fuel cpu_count tool files completed w :
  1 ≤ cpu_count - 1 →
  completed ≡ₚ files →
  (∀ f, f ∈ files → unit_comes_back html2text fuel tool f = true) →
  ∃ w',
    text_conversion html2text can_write fuel cpu_count tool files completed w
      = (Ok tt, w')
    ∧ (files ≠ [] → total_files_queued w' = Z.of_nat (length files))
    ∧ (files = [] → total_files_queued w' = total_files_queued w)
    ∧ 0 ≤ total_files_processed w' ≤ Z.of_nat (length files).
Proof.
  intros Hcpu Hperm Hback. eexists.
  split; [apply text_conversion_run; [done |] |].
  { intros f Hf. apply Hback. by rewrite <- Hperm. }
  rewrite fold_unit_step_queued, fold_unit_step_processed.
  split; [| split].
  - by destruct files.
  - by intros ->.
  - pose proof (length_filter
                  (λ f, unit_returns html2text fuel tool f = true) completed)
      as Hle.
    rewrite Hperm in Hle at 2. destruct files; simpl in *; lia.
Qed.





(** X21: a conversion run with the html2text tool or with the markdown
    slicer always comes to its end, whatever the files hold: unreadable
    files, pages without a Description and failing conversions are
    passed over and never stop the run. *)
Theorem text_conversion_markdown_tools_complete
    fuel cpu_count tool files completed w :
  1 ≤ cpu_count - 1 →
  tool = str "2" ∨ tool = str "3" →
  (text_conversion html2text can_write fuel cpu_count tool files completed w).1
  = Ok tt.
Proof.
  intros Hcpu Htool. rewrite text_conversion_run; [done | done |].
  intros f _. unfold unit_comes_back, apply_tool, html_to_markdown.
  destruct (bool_decide (name f = DS_STORE)); [done |].
  destruct Htool as [-> | ->].
  - rewrite bool_decide_eq_false_2 by (intros H; discriminate H).
    rewrite bool_decide_eq_true_2 by done.
    by destruct (html2text (data f)).
  - rewrite !bool_decide_eq_false_2 by (intros H; discriminate H).
    by rewrite bool_decide_eq_true_2 by done.
Qed.

End MorePoolFacts.

Lemma text_conversion_markdown_tools_complete_witness :
  (text_conversion (λ _, RaisesOther) always_writable 0 4 (str "2")
     unreadable_then_long (reverse unreadable_then_long) w0).1 = Ok tt.
Proof.
  apply (text_conversion_markdown_tools_complete (λ _, RaisesOther)
           always_writable 0 4 (str "2")).
  - lia.
  - by left.
Defined.

Lemma text_conversion_order_irrelevant_witness :
  ∃ w1 w2,
    text_conversion no_html2text always_writable 0 4 (str "3")
      markdown_files markdown_files w0 = (Ok tt, w1)
    ∧ text_conversion no_html2text always_writable 0 4 (str "3")
        markdown_files (reverse markdown_files) w0 = (Ok tt, w2)
    ∧ outdir w1 = outdir w2
    ∧ total_files_processed w1 = total_files_processed w2
    ∧ total_files_queued w1 = total_files_queued w2.
Proof.
  apply (text_conversion_order_irrelevant no_html2text always_writable 0 4
           (str "3") markdown_files markdown_files (reverse markdown_files) w0).
  - lia.
  - reflexivity.
  - apply reverse_Permutation.
  - apply (bool_decide_unpack _). vm_compute. exact I.
  - intros f Hf. unfold markdown_files in Hf.
    repeat (apply elem_of_cons in Hf as [->|Hf]); try reflexivity.
    by apply elem_of_nil in Hf.
Defined.

Lemma text_conversion_counters_witness :
  ∃ w',
    text_conversion no_html2text always_writable 0 4 (str "3")
      markdown_files (reverse markdown_files) w0 = (Ok tt, w')
    ∧ (markdown_files ≠ [] →
       total_files_queued w' = Z.of_nat (length markdown_files))
    ∧ (markdown_files = [] → total_files_queued w' = total_files_queued w0)
    ∧ 0 ≤ total_files_processed w' ≤ Z.of_nat (length markdown_files).
Proof.
  apply (text_conversion_counters no_html2text always_writable 0 4 (str "3")
           markdown_files (reverse markdown_files) w0).
  - lia.
  - apply reverse_Permutation.
  - intros f Hf. unfold markdown_files in Hf.
    repeat (apply elem_of_cons in Hf as [->|Hf]); try reflexivity.
    by apply elem_of_nil in Hf.
Defined.


(** ** What no mode touches *)

Section OtherOutputs.

Variable html2text : option pystr → converted.
Variable can_write : pystr → bool.
Variable key : pystr.

Lemma preserves_for_fold_in {A S} (P : world → Prop) (xs : list A)
    (body : A → S → M S) :
  (∀ x acc, x ∈ xs → preserves P (body x acc)) →
  ∀ acc, preserves P (for_fold xs acc body).
Proof.
  induction xs as [|x xs IH]; intros Hbody acc; simpl.
  - apply preserves_ret.
  - apply preserves_bind; [apply Hbody; by left |].
    intros a. apply IH. intros y acc' Hy. apply Hbody. by right.
Qed.

Lemma import_text_kept v f : preserves (keeps_entry key v) (import_text f).
Proof. by intros w Hw. Qed.

Lemma export_text_kept v e filename :
  filename ≠ key →
  preserves (keeps_entry key v) (export_text can_write e filename).
Proof.
  intros Hne w Hw. unfold export_text, keeps_entry in *.
  destruct (can_write filename); simpl; [| done]. by rewrite lookup_insert_ne.
Qed.

Ltac kept_steps :=
  repeat first
    [ apply preserves_ret
    | apply preserves_raise
    | apply preserves_lift
    | apply import_text_kept
    | apply export_text_kept; assumption
    | apply preserves_bind; [| intros ?]
    | match goal with
      | |- preserves _ (if ?b then _ else _) => destruct b
      | |- preserves _ (match ?x with Some _ => _ | None => _ end) => destruct x
      end ].

Lemma name_not_key (files : list file) f :
  key ∉ name <$> files → f ∈ files → name f ≠ key.
Proof.
  intros Hkey Hf Heq. apply Hkey. rewrite <- Heq. by apply list_elem_of_fmap_2.
Qed.

Lemma pool_unit_kept v fuel tool f :
  name f ≠ key →
  preserves (keeps_entry key v) (pool_unit html2text can_write fuel tool f).
Proof.
  intros Hne w Hw. unfold pool_unit.
  assert (preserves (keeps_entry key v)
            (conversion_process html2text can_write fuel tool f))
    as Hcp by (unfold conversion_process; kept_steps).
  specialize (Hcp w Hw).
  by destruct (conversion_process _ _ _ _ _ w) as [[[]|[]|] w1].
Qed.

(** X20: in each of the four modes, what the output directory holds under
    a name that is not the name of an input file is left as it was: a run
    writes under the names of its input files only and deletes nothing. *)
Theorem outputs_of_other_names_untouched w :
  (∀ fuel cpu_count tool files completed,
     key ∉ name <$> completed →
     outdir (text_conversion html2text can_write fuel cpu_count tool
               files completed w).2 !! key = outdir w !! key)
  ∧ (∀ files, key ∉ name <$> files →
       outdir (export_long can_write files w).2 !! key = outdir w !! key)
  ∧ (∀ draws mode n files, key ∉ name <$> files →
       outdir (pick_rand can_write draws mode n files w).2 !! key
       = outdir w !! key)
  ∧ (∀ quest_list files, key ∉ name <$> files →
       outdir (match_list can_write quest_list files w).2 !! key
       = outdir w !! key).
Proof.
  split; [| split; [| split]].
  - intros fuel cpu_count tool files completed Hkey.
    assert (preserves (keeps_entry key (outdir w !! key))
              (text_conversion html2text can_write fuel cpu_count tool
                 files completed)) as H; [| by apply H].
    unfold text_conversion.
    destruct (cpu_count - 1 <? 1); [apply preserves_raise |].
    apply preserves_bind; [by intros w1 Hw1 |]. intros _.
    apply preserves_bind.
    { apply preserves_for_fold. by intros _ num w1 Hw1. }
    intros _. apply preserves_bind; [| intros _; apply preserves_ret].
    apply preserves_for_fold_in. intros f _ Hf.
    apply pool_unit_kept. by eapply name_not_key.
  - intros files Hkey.
    assert (preserves (keeps_entry key (outdir w !! key))
              (export_long can_write files)) as H; [| by apply H].
    apply preserves_for_fold_in. intros f num_file Hf.
    pose proof (name_not_key files f Hkey Hf).
    destruct (negb _); [| apply preserves_ret].
    apply preserves_bind; [apply import_text_kept | intros content].
    apply preserves_bind; [destruct content; kept_steps | intros n].
    cbv zeta. kept_steps.
  - intros draws mode n files Hkey.
    assert (preserves (keeps_entry key (outdir w !! key))
              (pick_rand can_write draws mode n files)) as H; [| by apply H].
    unfold pick_rand. apply preserves_bind.
    { unfold random_sample, stride_slice. kept_steps. }
    intros [picked_files|]; [| apply preserves_ret].
    apply preserves_bind; [| intros _; apply preserves_raise].
    apply preserves_for_fold_in. intros f num_file Hf.
    pose proof (name_not_key files f Hkey Hf). kept_steps.
  - intros quest_list files Hkey.
    assert (preserves (keeps_entry key (outdir w !! key))
              (match_list can_write quest_list files)) as H; [| by apply H].
    apply preserves_for_fold_in. intros f num_file Hf.
    pose proof (name_not_key files f Hkey Hf).
    destruct (negb _); [| apply preserves_ret].
    apply preserves_bind; [destruct quest_list; kept_steps | intros listed].
    kept_steps.
Qed.

End OtherOutputs.

Lemma outputs_of_other_names_untouched_witness :
  outdir (match_list always_writable (Some list_of_eleven) three_files
            (set_outdir {[ str "old.txt" := str "kept" ]} w0)).2
    !! str "old.txt" = Some (str "kept").
Proof.
  destruct (outputs_of_other_names_untouched no_html2text always_writable
              (str "old.txt")
              (set_outdir {[ str "old.txt" := str "kept" ]} w0))
    as (_ & _ & _ & Hmatch).
  rewrite Hmatch.
  - apply lookup_singleton_eq.
  - apply (bool_decide_unpack _). vm_compute. exact I.
Defined.
